(** * Scrapper__Groups.io: the resumable two-phase crawl pipeline

    A shallow embedding of
    - [src/000002_main_scraper.py]: phase 1, discovery of thread URLs
      ([find_and_click_next_page], [get_all_thread_urls], [main]);
    - [src/03_main_scraper.py]: phase 2, extraction of thread records
      ([scrape_thread_page], [main]);
    and, of the older variants, the [except] clause of the resolver in
    [src/00002_main_scraper.py] and the flush test of
    [src/003_main_scraper.py].

    Python [str] values are Rocq [string]s; an [ascii] stands for the code
    point of the same number (U+0000 to U+00FF).  The browser (Playwright's
    [page] and [Locator] objects) is an interface: every theorem holds for
    every implementation of it.  Exceptions are values ([Raise]); the two
    kinds the source tells apart are Playwright's [TimeoutError] and any
    other [Exception]. *)

From Stdlib Require Import Ascii.
From stdpp Require Import gmap strings list sorting pretty.

Local Open Scope stdpp_scope.

(** ** Python string primitives used by the scrapers *)

Module Py.

(** [str.isspace] of one character, for code points below 256
    (CPython's [_PyUnicode_IsWhitespace]). *)
Definition is_space (c : ascii) : bool :=
  bool_decide (N_of_ascii c ∈ [9; 10; 11; 12; 13; 28; 29; 30; 31; 32; 133; 160]%N).

(** The line boundaries of [str.splitlines], for code points below 256
    (CPython's [_PyUnicode_IsLinebreak]). *)
Definition is_linebreak (c : ascii) : bool :=
  bool_decide (N_of_ascii c ∈ [10; 11; 12; 13; 28; 29; 30; 133]%N).

Definition LF : ascii := "010"%char.
Definition CR : ascii := "013"%char.

(** Truth value of a [str]: non-empty. *)
Definition truthy (s : string) : bool :=
  match s with "" => false | String _ _ => true end.

Fixpoint lstrip (s : string) : string :=
  match s with
  | "" => ""
  | String c s' => if is_space c then lstrip s' else s
  end.

Fixpoint rstrip (s : string) : string :=
  match s with
  | "" => ""
  | String c s' =>
      match rstrip s' with
      | "" => if is_space c then "" else String c ""
      | r => String c r
      end
  end.

(** [s.strip()] *)
Definition strip (s : string) : string := rstrip (lstrip s).

(** Put a character in front of the first line of [ls]. *)
Definition cons_line (c : ascii) (ls : list string) : list string :=
  match ls with
  | [] => [String c ""]
  | l :: ls' => String c l :: ls'
  end.

(** [s.splitlines()]: every line boundary ends a line, CR LF counts as
    one boundary, and no empty line is reported after the last boundary.
    [after_cr] says that the previous character was a CR. *)
Fixpoint splitlines_go (after_cr : bool) (s : string) : list string :=
  match s with
  | "" => []
  | String c s' =>
      if after_cr && bool_decide (c = LF) then splitlines_go false s'
      else if is_linebreak c then "" :: splitlines_go (bool_decide (c = CR)) s'
      else cons_line c (splitlines_go false s')
  end.

Definition splitlines (s : string) : list string := splitlines_go false s.

(** [s.split(sep)] for a one-character separator: at least one part. *)
Fixpoint split (sep : ascii) (s : string) : list string :=
  match s with
  | "" => [""]
  | String c s' =>
      if bool_decide (c = sep) then "" :: split sep s'
      else cons_line c (split sep s')
  end.

(** [sep.join(parts)] *)
Fixpoint join (sep : string) (parts : list string) : string :=
  match parts with
  | [] => ""
  | [p] => p
  | p :: rest => p +:+ sep +:+ join sep rest
  end.


Definition starts_with_space (s : string) : bool :=
  match s with "" => false | String c _ => is_space c end.

Fixpoint ends_with_space (s : string) : bool :=
  match s with
  | "" => false
  | String c "" => is_space c
  | String _ s' => ends_with_space s'
  end.

Fixpoint has_linebreak (s : string) : bool :=
  match s with
  | "" => false
  | String c s' => is_linebreak c || has_linebreak s'
  end.

End Py.

(** ** Exceptions, records and the browser interface *)

(** What an awaited browser call can raise: Playwright's [TimeoutError], or
    any other subclass of [Exception] (a strict-mode violation, a closed
    page, ...).  Both are caught by [except Exception]; only the first by
    [except TimeoutError]. *)
Inductive exn := TimeoutError | OtherError.

Inductive res (A : Type) :=
| Ok (a : A)
| Raise (e : exn).
Arguments Ok {A} a.
Arguments Raise {A} e.

(** Playwright locators are descriptions of how to find elements; they are
    built without touching the page. *)
Inductive Locator :=
| page_locator (selector : string)          (* page.locator(selector) *)
| page_get_by_role (role name : string)     (* page.get_by_role(role, name=name, exact=True) *)
| loc_nth (l : Locator) (i : nat)           (* one element of [await l.all()] *)
| loc_locator (l : Locator) (selector : string).  (* l.locator(selector) *)

#[global] Instance Locator_eq_dec : EqDecision Locator.
Proof. solve_decision. Defined.

(** The awaited calls on [page] and on locators that the scrapers make.
    [W] is the state of the browser and of the site behind it. *)
Class Playwright (W : Type) := {
  pw_goto : string → W → res unit * W;
  pw_wait_for_selector : string → W → res unit * W;
  pw_wait_for_load_state : W → res unit * W;
  pw_wait_for_timeout : W → res unit * W;
  pw_title : W → res string * W;
  pw_all : Locator → W → res (list Locator) * W;
  pw_text_content : Locator → W → res (option string) * W;
  pw_get_attribute : Locator → string → W → res (option string) * W;
  pw_inner_text : Locator → W → res string * W;
  pw_is_visible : Locator → W → res bool * W;
  pw_click : Locator → W → res unit * W
}.

(** A message and a thread record, as the dictionaries built in
    [scrape_thread_page]. *)
Record Message := { author : string; timestamp : string; body : string }.
Record ThreadRecord := { url : string; title : string; messages : list Message }.

(** The three files of the pipeline: [auth_state.json] (only its existence
    matters), [thread_urls.json] and [scraped_data.json] ([None]: the file
    does not exist). *)
Record FS := {
  auth_state_json : bool;
  thread_urls_json : option (list string);
  scraped_data_json : option (gmap string ThreadRecord)
}.

(** What a run does to the outside, in order: navigations, writes of a
    file, and the report of the top-level [except] handler. *)
Inductive Event :=
| EvGoto (target : string)
| EvWrite (path : string)
| EvError (e : exn).

#[global] Instance exn_eq_dec : EqDecision exn.
Proof. solve_decision. Defined.
#[global] Instance Event_eq_dec : EqDecision Event.
Proof. solve_decision. Defined.

Definition dq : string := String "034"%char "".

(** Configuration constants of the two scripts. *)
Definition AUTH_FILE : string := "auth_state.json".
Definition URLS_FILE : string := "thread_urls.json".
Definition DATA_FILE : string := "scraped_data.json".
Definition GROUP_URL : string := "https://ardc.groups.io/g/44net/topics".
Definition SAVE_EVERY : nat := 10.
Definition thread_link_selector : string :=
  "a.subject[href*=" +:+ dq +:+ "/g/44net/topic/" +:+ dq +:+ "]".

(** [locators_to_try] of [find_and_click_next_page] (000002, lines 20-31). *)
Definition locators_to_try : list Locator :=
  [ page_locator ("a[rel=" +:+ dq +:+ "next" +:+ dq +:+ "]");
    page_locator ("a[aria-label=" +:+ dq +:+ "Next page" +:+ dq +:+ "]");
    page_get_by_role "link" "next";
    page_locator "a:has(i.fa-chevron-right)" ].

(** ** Pure parts of [scrape_thread_page] *)

(** Lines 38-39: [title_parts = full_title.split('|')];
    [title_parts[-1].strip() if len(title_parts) > 1 else full_title]. *)
Definition parse_title (full_title : string) : string :=
  let title_parts := Py.split "|"%char full_title in
  if bool_decide (1 < length title_parts) then Py.strip (List.last title_parts "")
  else full_title.

(** Line 81: [title.strip() if title else "N/A"]; lines 74-75 do the same
    to an author or timestamp that may be [None]. *)
Definition strip_or_na (v : option string) : string :=
  match v with
  | Some s => if Py.truthy s then Py.strip s else "N/A"
  | None => "N/A"
  end.

(** Line 69: ["\n".join(line.strip() for line in body.splitlines() if line.strip())]. *)
Definition clean_body (body : string) : string :=
  Py.join (String Py.LF "")
    (map Py.strip (List.filter (fun line => Py.truthy (Py.strip line)) (Py.splitlines body))).

(** A line as the clean-up leaves it. *)
Definition clean_line (l : string) : Prop :=
  l ≠ "" ∧ Py.has_linebreak l = false ∧ Py.strip l = l.

(** The title field of the record for a document title (lines 36-39, 81). *)
Definition record_title (full_title : string) : string :=
  strip_or_na (Some (parse_title full_title)).

(** [sorted(thread_urls)]: strings compare by code point, character by
    character. *)
Definition sorted (l : list string) : list string := merge_sort String.le l.

(** The flush test of the extraction loop: line 130 of 03, and line 137 of
    003, which lacks the test for the last index. *)
Definition save_due_03 (i total_urls : nat) : bool :=
  ((i + 1) mod SAVE_EVERY =? 0) || (i =? total_urls - 1).
Definition save_due_003 (i total_urls : nat) : bool :=
  (i + 1) mod SAVE_EVERY =? 0.

Section Scrapers.
Context {W : Type} `{!Playwright W}.

(** The state a script runs in. *)
Record St := { browser : W; files : FS; events : list Event }.

Definition log (e : Event) (st : St) : St :=
  {| browser := browser st; files := files st; events := events st ++ [e] |}.

(** A computation that may raise. *)
Definition M (A : Type) : Type := St → res A * St.

Definition ret {A} (a : A) : M A := fun st => (Ok a, st).

Definition bind {A B} (m : M A) (k : A → M B) : M B :=
  fun st => match m st with
            | (Ok a, st') => k a st'
            | (Raise e, st') => (Raise e, st')
            end.

Definition raise {A} (e : exn) : M A := fun st => (Raise e, st).

(** [try: m  except Exception: h] *)
Definition catch {A} (m : M A) (h : exn → M A) : M A :=
  fun st => match m st with
            | (Ok a, st') => (Ok a, st')
            | (Raise e, st') => h e st'
            end.

Definition lift {A} (f : W → res A * W) : M A :=
  fun st => let '(r, w) := f (browser st) in
            (r, {| browser := w; files := files st; events := events st |}).

Definition goto (target : string) : M unit :=
  fun st => lift (pw_goto target) (log (EvGoto target) st).
Definition wait_for_selector (sel : string) : M unit := lift (pw_wait_for_selector sel).
Definition wait_for_load_state : M unit := lift pw_wait_for_load_state.
Definition wait_for_timeout : M unit := lift pw_wait_for_timeout.
Definition page_title : M string := lift pw_title.
Definition all (l : Locator) : M (list Locator) := lift (pw_all l).
Definition text_content (l : Locator) : M (option string) := lift (pw_text_content l).
Definition get_attribute (l : Locator) (name : string) : M (option string) :=
  lift (pw_get_attribute l name).
Definition inner_text (l : Locator) : M string := lift (pw_inner_text l).
Definition is_visible (l : Locator) : M bool := lift (pw_is_visible l).
Definition click (l : Locator) : M unit := lift (pw_click l).

(** [json.dump] to one of the two output files ([open(.., "w")]: the file
    is replaced by the whole value). *)
Definition write_data (scraped_data : gmap string ThreadRecord) (st : St) : St :=
  log (EvWrite DATA_FILE)
    {| browser := browser st;
       files := {| auth_state_json := auth_state_json (files st);
                   thread_urls_json := thread_urls_json (files st);
                   scraped_data_json := Some scraped_data |};
       events := events st |}.

Definition write_urls (thread_urls : list string) (st : St) : St :=
  log (EvWrite URLS_FILE)
    {| browser := browser st;
       files := {| auth_state_json := auth_state_json (files st);
                   thread_urls_json := Some thread_urls;
                   scraped_data_json := scraped_data_json (files st) |};
       events := events st |}.

End Scrapers.
Arguments St W : clear implicits.
Arguments M W A : clear implicits.

Declare Scope prog_scope.
Delimit Scope prog_scope with prog.
Notation "x <- m ;; k" := (bind m (fun x => k))
  (at level 100, m at next level, right associativity) : prog_scope.
Notation "m ;;; k" := (bind m (fun _ => k))
  (at level 100, right associativity) : prog_scope.

(** ** Phase 2: [03_main_scraper.py] *)

Section Extraction.
Context {W : Type} `{!Playwright W}.
Local Open Scope prog_scope.

(** [x = init; try: x = await m  except Exception: print(...)] *)
Definition try_assign {A} (init : A) (m : M W A) : M W A :=
  catch m (fun _ => ret init).

(** Lines 34-42: the title from the document's title. *)
Definition scrape_title : M W string :=
  catch (full_title <- page_title ;; ret (parse_title full_title))
        (fun _ => ret "Title not found").

(** Lines 51-77: one pass of the loop over the message elements. *)
Definition scrape_message (msg_element : Locator) : M W Message :=
  author <- try_assign (Some "N/A") (text_content (loc_locator msg_element "u")) ;;
  timestamp <- try_assign (Some "N/A")
                 (get_attribute (loc_locator msg_element "span[title]") "title") ;;
  body <- try_assign "N/A"
            (body <- inner_text (loc_locator msg_element "div.user-content") ;;
             ret (clean_body body)) ;;
  ret {| author := strip_or_na author;
         timestamp := strip_or_na timestamp;
         body := body |}.

(** Lines 45, 50-77: [messages] grows by one entry per element. *)
Fixpoint scrape_messages (message_elements : list Locator) (messages : list Message)
  : M W (list Message) :=
  match message_elements with
  | [] => ret messages
  | msg_element :: rest =>
      m <- scrape_message msg_element ;;
      scrape_messages rest (messages ++ [m])
  end.

(** Lines 22-31: navigation and the wait for the first message; both
    [except] clauses return [None]. *)
Definition open_thread (target : string) : M W bool :=
  catch (goto target ;;; wait_for_selector "div.expanded-message" ;;; ret true)
        (fun _ => ret false).

(** [scrape_thread_page(page, url)], lines 16-83. *)
Definition scrape_thread_page (target : string) : M W (option ThreadRecord) :=
  ready <- open_thread target ;;
  if ready then
    title <- scrape_title ;;
    message_elements <- all (page_locator "div.expanded-message") ;;
    messages <- scrape_messages message_elements [] ;;
    ret (Some {| url := target;
                 title := strip_or_na (Some title);
                 messages := messages |})
  else ret None.

(** Lines 123-133: the loop over [enumerate(urls_to_process)], from index
    [i].  [scraped_data] is the dictionary the loop mutates; it is
    returned whether the loop ends or an exception leaves it, since the
    [finally] clause writes what the dictionary holds by then.
    [save_due] is the test of line 130. *)
Fixpoint scrape_loop (save_due : nat → nat → bool) (i total_urls : nat)
    (urls : list string) (scraped_data : gmap string ThreadRecord) (st : St W)
  : res unit * gmap string ThreadRecord * St W :=
  match urls with
  | [] => (Ok tt, scraped_data, st)
  | target :: rest =>
      match scrape_thread_page target st with
      | (Raise e, st1) => (Raise e, scraped_data, st1)
      | (Ok thread_data, st1) =>
          let scraped_data1 :=
            match thread_data with
            | Some r => <[target := r]> scraped_data
            | None => scraped_data
            end in
          let st2 := if save_due i total_urls then write_data scraped_data1 st1 else st1 in
          scrape_loop save_due (S i) total_urls rest scraped_data1 st2
      end
  end.

(** Line 107: the URLs whose key is not yet in the loaded dictionary. *)
Definition urls_to_process (urls_to_scrape : list string)
    (scraped_data : gmap string ThreadRecord) : list string :=
  filter (fun target => target ∉ dom scraped_data) urls_to_scrape.

(** [main()], lines 88-142.  Starting the browser (lines 116-119) and
    closing it are not modelled: [browser st] is the page once opened. *)
Definition main_with (save_due : nat → nat → bool) (st : St W) : St W :=
  if negb (auth_state_json (files st)) then st
  else match thread_urls_json (files st) with
       | None => st
       | Some urls_to_scrape =>
           let scraped_data := default ∅ (scraped_data_json (files st)) in
           let todo := urls_to_process urls_to_scrape scraped_data in
           if bool_decide (todo = []) then st
           else
             let '(r, scraped_data1, st1) :=
               scrape_loop save_due 0 (length todo) todo scraped_data st in
             let st2 := match r with
                        | Ok _ => st1
                        | Raise e => log (EvError e) st1
                        end in
             write_data scraped_data1 st2
       end.

Definition main : St W → St W := main_with save_due_03.

End Extraction.

(** ** Phase 1: [000002_main_scraper.py] *)

Section Discovery.
Context {W : Type} `{!Playwright W}.
Local Open Scope prog_scope.

(** Lines 34-42: one strategy.  [True] when the element was visible and
    the click returned; the [except (TimeoutError, Exception)] clause
    turns whatever the probe or the click raises into [continue]. *)
Definition try_locator (locator : Locator) : M W bool :=
  catch (visible <- is_visible locator ;;
         if visible then click locator ;;; ret true else ret false)
        (fun _ => ret false).

(** Lines 33-45: the strategies in order, until one clicks. *)
Fixpoint try_locators (locators : list Locator) : M W bool :=
  match locators with
  | [] => ret false
  | locator :: rest =>
      clicked <- try_locator locator ;;
      if clicked then ret true else try_locators rest
  end.

Definition find_and_click_next_page : M W bool := try_locators locators_to_try.

(** The same loop in the older [00002_main_scraper.py] (lines 33-45), over
    the list of locators of that script: its clause is
    [except TimeoutError], which lets any other exception through. *)
Definition try_locator_00002 (locator : Locator) : M W bool :=
  catch (visible <- is_visible locator ;;
         if visible then click locator ;;; ret true else ret false)
        (fun e => match e with
                  | TimeoutError => ret false
                  | OtherError => raise OtherError
                  end).

Fixpoint try_locators_00002 (locators : list Locator) : M W bool :=
  match locators with
  | [] => ret false
  | locator :: rest =>
      clicked <- try_locator_00002 locator ;;
      if clicked then ret true else try_locators_00002 rest
  end.

(** Lines 69-74: the URLs of the links of the current page. *)
Fixpoint collect_hrefs (links : list Locator) (current_page_urls : gset string)
  : M W (gset string) :=
  match links with
  | [] => ret current_page_urls
  | link :: rest =>
      href <- get_attribute link "href" ;;
      collect_hrefs rest
        (match href with
         | Some h => if Py.truthy h then current_page_urls ∪ {[ "https://groups.io" +:+ h ]}
                     else current_page_urls
         | None => current_page_urls
         end)
  end.

(** Lines 61-79: what one pass does before it asks for the next page. *)
Definition collect_page (seen_urls : gset string) : M W (gset string) :=
  wait_for_timeout ;;;
  links <- all (page_locator thread_link_selector) ;;
  current_page_urls <- collect_hrefs links ∅ ;;
  ret (seen_urls ∪ current_page_urls).

(** Lines 60-88: [while True].  [None]: the loop is still running when the
    fuel is spent. *)
Fixpoint pagination_loop (fuel : nat) (seen_urls : gset string) (page_count : nat)
  : M W (option (gset string * nat)) :=
  match fuel with
  | 0 => ret None
  | S fuel' =>
      seen_urls1 <- collect_page seen_urls ;;
      advanced <- find_and_click_next_page ;;
      if advanced then
        wait_for_load_state ;;;
        pagination_loop fuel' seen_urls1 (page_count + 1)
      else ret (Some (seen_urls1, page_count))
  end.

(** [get_all_thread_urls(page)], lines 48-92; [list(seen_urls)] is
    the set's elements in some order. *)
Definition get_all_thread_urls (fuel : nat) : M W (option (list string)) :=
  goto GROUP_URL ;;;
  wait_for_selector thread_link_selector ;;;
  r <- pagination_loop fuel ∅ 1 ;;
  ret (match r with
       | Some (seen_urls, _) => Some (elements seen_urls)
       | None => None
       end).

(** [main()], lines 95-122.  [None]: discovery is still running. *)
Definition main_discovery (fuel : nat) (st : St W) : option (St W) :=
  if negb (auth_state_json (files st)) then Some st
  else match get_all_thread_urls fuel st with
       | (Ok (Some thread_urls), st1) => Some (write_urls (sorted thread_urls) st1)
       | (Ok None, _) => None
       | (Raise e, st1) => Some (log (EvError e) st1)
       end.

End Discovery.

(** ** A scripted browser

    An implementation of the interface over a site given as data: what
    each thread page and each page of the topic list answers.  The
    concrete runs below are executed on it. *)

Module Fake.

Record message := {
  fm_author : res (option string);
  fm_timestamp : res (option string);
  fm_body : res string
}.

Record thread := {
  ft_goto : res unit;
  ft_title : res string;
  ft_listing : res unit;   (* what listing the message elements answers *)
  ft_messages : list message
}.

(** A page of the topic list: the [href] of each link, and for the
    locators that match something what the visibility probe and the
    click answer. *)
Record listing := {
  fl_hrefs : list (option string);
  fl_next : list (Locator * (res bool * res unit))
}.

Record world := {
  fk_site : string → option thread;
  fk_listings : list listing;
  fk_thread : option thread;   (* the thread page shown, if any *)
  fk_listing : nat             (* else: the index of the list page shown *)
}.

Definition show (t : option thread) (n : nat) (w : world) : world :=
  {| fk_site := fk_site w; fk_listings := fk_listings w; fk_thread := t; fk_listing := n |}.

Definition current_listing (w : world) : option listing :=
  match fk_thread w with
  | Some _ => None
  | None => fk_listings w !! fk_listing w
  end.

Definition next_control (l : Locator) (w : world) : option (res bool * res unit) :=
  match current_listing w with
  | Some p => (fun e => e.2.2) <$> list_find (fun e => e.1 = l) (fl_next p)
  | None => None
  end.

Definition message_at (l : Locator) (w : world) : option message :=
  match l, fk_thread w with
  | loc_locator (loc_nth _ i) _, Some t => ft_messages t !! i
  | _, _ => None
  end.

Definition do_goto (target : string) (w : world) : res unit * world :=
  if bool_decide (target = GROUP_URL) then (Ok tt, show None 0 w)
  else match fk_site w target with
       | Some t => (ft_goto t, show (Some t) 0 w)
       | None => (Raise TimeoutError, w)
       end.

Definition do_wait_for_selector (sel : string) (w : world) : res unit * world :=
  match fk_thread w with
  | Some t => (match ft_messages t with [] => Raise TimeoutError | _ => Ok tt end, w)
  | None => (match current_listing w with
             | Some p => match fl_hrefs p with [] => Raise TimeoutError | _ => Ok tt end
             | None => Raise TimeoutError
             end, w)
  end.

Definition do_title (w : world) : res string * world :=
  (match fk_thread w with Some t => ft_title t | None => Ok "Topics" end, w).

Definition do_all (l : Locator) (w : world) : res (list Locator) * world :=
  match fk_thread w with
  | Some t =>
      (match ft_listing t with
       | Ok _ => Ok (loc_nth l <$> seq 0 (length (ft_messages t)))
       | Raise e => Raise e
       end, w)
  | None =>
      (Ok (loc_nth l <$> seq 0 (from_option (fun p => length (fl_hrefs p)) 0
                                  (current_listing w))), w)
  end.

Definition do_text_content (l : Locator) (w : world) : res (option string) * world :=
  (from_option fm_author (Raise TimeoutError) (message_at l w), w).

Definition do_get_attribute (l : Locator) (name : string) (w : world)
  : res (option string) * world :=
  match l with
  | loc_nth _ i =>
      (match current_listing w ≫= fun p => fl_hrefs p !! i with
       | Some href => Ok href
       | None => Raise TimeoutError
       end, w)
  | _ => (from_option fm_timestamp (Raise TimeoutError) (message_at l w), w)
  end.

Definition do_inner_text (l : Locator) (w : world) : res string * world :=
  (from_option fm_body (Raise TimeoutError) (message_at l w), w).

Definition do_is_visible (l : Locator) (w : world) : res bool * world :=
  (from_option fst (Ok false) (next_control l w), w).

Definition do_click (l : Locator) (w : world) : res unit * world :=
  match next_control l w with
  | Some (_, Ok _) => (Ok tt, show None (S (fk_listing w)) w)
  | Some (_, Raise e) => (Raise e, w)
  | None => (Raise TimeoutError, w)
  end.

Definition playwright : Playwright world := {|
  pw_goto := do_goto;
  pw_wait_for_selector := do_wait_for_selector;
  pw_wait_for_load_state := fun w => (Ok tt, w);
  pw_wait_for_timeout := fun w => (Ok tt, w);
  pw_title := do_title;
  pw_all := do_all;
  pw_text_content := do_text_content;
  pw_get_attribute := do_get_attribute;
  pw_inner_text := do_inner_text;
  pw_is_visible := do_is_visible;
  pw_click := do_click
|}.

(** A site, opened on nothing. *)
Definition open (site : string → option thread) (listings : list listing) : world :=
  {| fk_site := site; fk_listings := listings; fk_thread := None; fk_listing := 0 |}.

Definition start (fs : FS) (w : world) : St world :=
  {| browser := w; files := fs; events := [] |}.

End Fake.

(** A URL built by prefixing a non-empty [href] with the scheme and host
    (line 73). *)
Definition scheme_qualified (u : string) : Prop :=
  ∃ href, href ≠ "" ∧ u = "https://groups.io" +:+ href.

(** ** Reading a run's events *)

(** The targets of the navigations, in order. *)
Fixpoint navigations (evs : list Event) : list string :=
  match evs with
  | [] => []
  | EvGoto target :: evs' => target :: navigations evs'
  | _ :: evs' => navigations evs'
  end.

(** For each write in [evs], how many navigations came before it, counting
    from [n]. *)
Fixpoint flush_points (n : nat) (evs : list Event) : list nat :=
  match evs with
  | [] => []
  | EvGoto _ :: evs' => flush_points (S n) evs'
  | EvWrite _ :: evs' => n :: flush_points n evs'
  | EvError _ :: evs' => flush_points n evs'
  end.

(** Did the top-level handler report an exception? *)
Definition interrupted (evs : list Event) : bool :=
  existsb (fun ev => match ev with EvError _ => true | _ => false end) evs.

(** The flush points of an uninterrupted loop over [n] URLs from index [i],
    [k] URLs having been visited before. *)
Fixpoint loop_flushes (save_due : nat → nat → bool) (i total_urls n k : nat) : list nat :=
  match n with
  | 0 => []
  | S n' => (if save_due i total_urls then [S k] else [])
            ++ loop_flushes save_due (S i) total_urls n' (S k)
  end.

Section RunShapes.
Context {W : Type} `{!Playwright W}.

(** The states in which the strategies are tried, one after the other,
    as long as none has clicked. *)
Fixpoint states_tried (locators : list Locator) (st : St W) : list (St W) :=
  match locators with
  | [] => []
  | locator :: rest => st :: states_tried rest (try_locator locator st).2
  end.

(** A strategy matches: its element is visible and the click returns. *)
Definition visible_and_clicked (locator : Locator) (st st' : St W) : Prop :=
  ∃ st1, is_visible locator st = (Ok true, st1) ∧ click locator st1 = (Ok tt, st').

(** A visible element was found by the probe. *)
Definition visible_match (locator : Locator) (st : St W) : Prop :=
  ∃ st1, is_visible locator st = (Ok true, st1).

(** [advances K seen st seen' st']: [K] page transitions lead from [st]
    to [st']; on each of the [K] pages the links were collected, the
    resolver answered [True] and the new page loaded. *)
Inductive advances : nat → gset string → St W → gset string → St W → Prop :=
| advances_O seen st : advances 0 seen st seen st
| advances_S K seen st seen1 st1 st2 st3 seen' st' :
    collect_page seen st = (Ok seen1, st1) →
    find_and_click_next_page st1 = (Ok true, st2) →
    wait_for_load_state st2 = (Ok tt, st3) →
    advances K seen1 st3 seen' st' →
    advances (S K) seen st seen' st'.

(** A computation that neither navigates nor writes: it leaves the
    files and the events as they are. *)
Definition quiet {A} (m : M W A) : Prop :=
  ∀ st, files (m st).2 = files st ∧ events (m st).2 = events st.

(** Navigation or the wait for the first message raises [e]. *)
Definition navigation_fails (target : string) (st : St W) (e : exn) : Prop :=
  (goto target st).1 = Raise e ∨
  ((goto target st).1 = Ok tt ∧
   (wait_for_selector "div.expanded-message" (goto target st).2).1 = Raise e).

End RunShapes.

(** ** Concrete sites and runs *)

Module Runs.
Import Fake.
#[local] Existing Instance Fake.playwright.

Definition rel_next : Locator := page_locator ("a[rel=" +:+ dq +:+ "next" +:+ dq +:+ "]").

Definition plain_message : message :=
  {| fm_author := Ok (Some " Ann ");
     fm_timestamp := Ok (Some "2024-01-01T10:00:00");
     fm_body := Ok "hello" |}.

Definition thread_titled (t : res string) : thread :=
  {| ft_goto := Ok tt; ft_title := t; ft_listing := Ok tt;
     ft_messages := [plain_message] |}.

Definition topic (n : string) : string := "https://groups.io/g/44net/topic/" +:+ n.

Definition fs_ready (urls : list string) (data : option (gmap string ThreadRecord)) : FS :=
  {| auth_state_json := true; thread_urls_json := Some urls; scraped_data_json := data |}.

(** Every thread loads and is titled [t]. *)
Definition site_titled (t : res string) : world :=
  open (fun _ => Some (thread_titled t)) [].


(** Twenty-three thread URLs, none scraped before; every thread loads. *)
Definition urls23 : list string :=
  (fun n => topic (String (ascii_of_nat (65 + n)) "")) <$> seq 0 23.

Definition st_23 : St world :=
  start (fs_ready urls23 None) (site_titled (Ok "44net@ardc.groups.io | t")).

(** A resumed run: thread A was scraped before, thread B times out, thread
    C loads. *)
Definition record_A : ThreadRecord :=
  {| url := topic "A"; title := "old"; messages := [] |}.

Definition site_resume : world :=
  open (fun target =>
          if bool_decide (target = topic "B")
          then Some {| ft_goto := Raise TimeoutError; ft_title := Ok "B";
                       ft_listing := Ok tt; ft_messages := [] |}
          else Some (thread_titled (Ok "44net@ardc.groups.io | C")))
       [].

Definition st_resume : St world :=
  start (fs_ready [topic "A"; topic "B"; topic "C"] (Some {[ topic "A" := record_A ]}))
        site_resume.

Definition st_noauth : St world :=
  start {| auth_state_json := false;
           thread_urls_json := Some [topic "A"];
           scraped_data_json := None |} site_resume.

(** The page of thread B closes while its messages are listed. *)
Definition site_closing : world :=
  open (fun target =>
          if bool_decide (target = topic "B")
          then Some {| ft_goto := Ok tt; ft_title := Ok "B";
                       ft_listing := Raise OtherError; ft_messages := [plain_message] |}
          else Some (thread_titled (Ok "44net@ardc.groups.io | C")))
       [].

Definition st_closing : St world :=
  start (fs_ready [topic "A"; topic "B"; topic "C"] (Some {[ topic "A" := record_A ]}))
        site_closing.

(** A thread whose only message has no timestamp element. *)
Definition site_partial : world :=
  open (fun _ =>
          Some {| ft_goto := Ok tt; ft_title := Ok "t"; ft_listing := Ok tt;
                  ft_messages := [ {| fm_author := Ok (Some " Ann ");
                                      fm_timestamp := Raise TimeoutError;
                                      fm_body := Ok " hi " |} ] |})
       [].

Definition st_partial : St world :=
  (open_thread (topic "A") (start (fs_ready [] None) site_partial)).2.

Definition first_message : Locator := loc_nth (page_locator "div.expanded-message") 0.


(** A topic list of three pages; the second shows no link at all, the
    third has no control for a next page. *)
Definition next_works : list (Locator * (res bool * res unit)) :=
  [(rel_next, (Ok true, Ok tt))].

Definition three_pages : list listing :=
  [ {| fl_hrefs := [Some "/g/44net/topic/2"; Some "/g/44net/topic/1"];
       fl_next := next_works |};
    {| fl_hrefs := []; fl_next := next_works |};
    {| fl_hrefs := [Some "/g/44net/topic/2"; None; Some ""; Some "/g/44net/topic/3"];
       fl_next := [] |} ].

Definition fs_auth_only : FS :=
  {| auth_state_json := true; thread_urls_json := None; scraped_data_json := None |}.

Definition st_three : St world := start fs_auth_only (open (fun _ => None) three_pages).

(** A page whose next control is visible, but cannot be clicked (the click
    times out). *)
Definition stuck_page : list listing :=
  [ {| fl_hrefs := [Some "/g/44net/topic/1"];
       fl_next := [(rel_next, (Ok true, Raise TimeoutError))] |} ].

Definition st_stuck : St world := start fs_auth_only (open (fun _ => None) stuck_page).

End Runs.

(** ** Further scripts: [02_main_scraper.py] and [00002_main_scraper.py] *)

(** Configuration of 02 (lines 10-13): [PAGE_RANGE = range(1, 10)]. *)
Definition GROUP_URL_BASE : string := "https://ardc.groups.io/g/44net/topics?page=".
Definition PAGE_RANGE : list nat := seq 1 9.

(** Line 30 of 02: [f"{GROUP_URL_BASE}{page_num}"]. *)
Definition page_url (page_num : nat) : string := GROUP_URL_BASE +:+ pretty page_num.

(** 00002, line 53: the link selector without the [subject] class. *)
Definition thread_link_selector_00002 : string :=
  "a[href*=" +:+ dq +:+ "/g/44net/topic/" +:+ dq +:+ "]".

(** 00002, lines 20-31.  The arrow of the third selector is U+203A, above
    the characters this model gives a meaning to; selectors are only passed
    on to the browser, so it is written as the bytes the file holds. *)
Definition locators_to_try_00002 : list Locator :=
  [ page_locator ("a[aria-label=" +:+ dq +:+ "Next page" +:+ dq +:+ "]");
    page_get_by_role "link" "next";
    page_locator ("a:has-text(" +:+ dq +:+ "next ›" +:+ dq +:+ ")");
    page_locator ("a[title*=" +:+ dq +:+ "Next" +:+ dq +:+ "]");
    page_locator "a:has(i.fa-angle-right)" ].

Section Variants.
Context {W : Type} `{!Playwright W}.
Local Open Scope prog_scope.

(** [try: m  except TimeoutError: h] *)
Definition catch_timeout {A} (m : M W A) (h : M W A) : M W A :=
  catch m (fun e => match e with
                    | TimeoutError => h
                    | OtherError => raise OtherError
                    end).

(** [find_and_click_next_page] of 00002, lines 14-45. *)
Definition find_and_click_next_page_00002 : M W bool :=
  try_locators_00002 locators_to_try_00002.

(** The body of the pagination loop up to the call of the resolver, for a
    link selector (000002 lines 61-79, 00002 lines 61-81). *)
Definition collect_page_of (selector : string) (seen_urls : gset string)
  : M W (gset string) :=
  wait_for_timeout ;;;
  links <- all (page_locator selector) ;;
  current_page_urls <- collect_hrefs links ∅ ;;
  ret (seen_urls ∪ current_page_urls).

(** The [while True] loop for a link selector and a resolver. *)
Fixpoint pagination_loop_of (selector : string) (advance : M W bool) (fuel : nat)
    (seen_urls : gset string) (page_count : nat) : M W (option (gset string * nat)) :=
  match fuel with
  | 0 => ret None
  | S fuel' =>
      seen_urls1 <- collect_page_of selector seen_urls ;;
      advanced <- advance ;;
      if advanced then
        wait_for_load_state ;;;
        pagination_loop_of selector advance fuel' seen_urls1 (page_count + 1)
      else ret (Some (seen_urls1, page_count))
  end.

(** [get_all_thread_urls] of 00002, lines 48-94. *)
Definition get_all_thread_urls_00002 (fuel : nat) : M W (option (list string)) :=
  goto GROUP_URL ;;;
  wait_for_selector thread_link_selector_00002 ;;;
  r <- pagination_loop_of thread_link_selector_00002 find_and_click_next_page_00002
         fuel ∅ 1 ;;
  ret (match r with
       | Some (seen_urls, _) => Some (elements seen_urls)
       | None => None
       end).

(** [main] of 00002, lines 97-123; it writes to ["thread_urls.json"]. *)
Definition main_discovery_00002 (fuel : nat) (st : St W) : option (St W) :=
  if negb (auth_state_json (files st)) then Some st
  else match get_all_thread_urls_00002 fuel st with
       | (Ok (Some thread_urls), st1) => Some (write_urls (sorted thread_urls) st1)
       | (Ok None, _) => None
       | (Raise e, st1) => Some (log (EvError e) st1)
       end.

(** 02, lines 33-39: navigation to a page and the wait for its first
    link; a timeout of either is the [break] of line 39. *)
Definition open_page (page_num : nat) : M W bool :=
  catch_timeout
    (goto (page_url page_num) ;;;
     wait_for_selector thread_link_selector ;;; ret true)
    (ret false).

(** 02, lines 29-59: the loop over the page numbers.  A page that does not
    open and a page without links both [break]. *)
Fixpoint loop_pages (page_nums : list nat) (seen_urls : gset string)
  : M W (gset string) :=
  match page_nums with
  | [] => ret seen_urls
  | page_num :: rest =>
      loaded <- open_page page_num ;;
      if loaded then
        links <- all (page_locator thread_link_selector) ;;
        match links with
        | [] => ret seen_urls
        | _ :: _ =>
            seen_urls1 <- collect_hrefs links seen_urls ;;
            loop_pages rest seen_urls1
        end
      else ret seen_urls
  end.

(** [get_all_thread_urls_by_looping] of 02, lines 18-63. *)
Definition get_all_thread_urls_by_looping : M W (list string) :=
  seen_urls <- loop_pages PAGE_RANGE ∅ ;;
  ret (elements seen_urls).

(** [main] of 02, lines 66-97: nothing is saved when no URL was
    collected. *)
Definition main_02 (st : St W) : St W :=
  if negb (auth_state_json (files st)) then st
  else match get_all_thread_urls_by_looping st with
       | (Ok thread_urls, st1) =>
           match thread_urls with
           | [] => st1
           | _ :: _ => write_urls (sorted thread_urls) st1
           end
       | (Raise e, st1) => log (EvError e) st1
       end.

End Variants.

(** ** Shapes of records and runs, for the further properties *)

(** Only whitespace ([str.isspace], or empty). *)
Fixpoint all_space (s : string) : bool :=
  match s with
  | "" => true
  | String c s' => Py.is_space c && all_space s'
  end.

(** No whitespace at either end. *)
Definition trimmed (s : string) : Prop :=
  Py.starts_with_space s = false ∧ Py.ends_with_space s = false.

Definition normalised_message (m : Message) : Prop :=
  trimmed (author m) ∧ trimmed (timestamp m) ∧ clean_body (body m) = body m.

Definition normalised_record (target : string) (r : ThreadRecord) : Prop :=
  url r = target ∧ trimmed (title r) ∧ Forall normalised_message (messages r).

(** The URLs a list of [href] values contributes (000002, lines 70-74). *)
Fixpoint urls_of_hrefs (hrefs : list (option string)) : gset string :=
  match hrefs with
  | [] => ∅
  | Some h :: rest =>
      if Py.truthy h then {[ "https://groups.io" +:+ h ]} ∪ urls_of_hrefs rest
      else urls_of_hrefs rest
  | None :: rest => urls_of_hrefs rest
  end.

Section ReadShapes.
Context {W : Type} `{!Playwright W}.

(** The [href] attributes of the links, read one after the other. *)
Fixpoint read_hrefs (links : list Locator) (st : St W)
  : res (list (option string)) * St W :=
  match links with
  | [] => (Ok [], st)
  | link :: rest =>
      match get_attribute link "href" st with
      | (Ok href, st1) =>
          match read_hrefs rest st1 with
          | (Ok hrefs, st2) => (Ok (href :: hrefs), st2)
          | (Raise e, st2) => (Raise e, st2)
          end
      | (Raise e, st1) => (Raise e, st1)
      end
  end.

(** Page [page_num] of 02's crawl cannot be read: the navigation or the
    wait for a link times out, or the page shows no link. *)
Definition page_unavailable (page_num : nat) (st : St W) : Prop :=
  let nav := goto (page_url page_num) st in
  let wait := wait_for_selector thread_link_selector nav.2 in
  nav.1 = Raise TimeoutError ∨
  (nav.1 = Ok tt ∧ wait.1 = Raise TimeoutError) ∨
  (nav.1 = Ok tt ∧ wait.1 = Ok tt ∧
   (all (page_locator thread_link_selector) wait.2).1 = Ok []).

End ReadShapes.

(** ** The scrolling variant: [002_main_scraper.py] *)

Definition SCROLL_PATIENCE : nat := 5.

Section Scrolling.
Context {W : Type} `{!Playwright W}.
(** [page.evaluate(script)], the one call of 002 that the other scripts do
    not make. *)
Context (pw_evaluate : string → W → res unit * W).
Local Open Scope prog_scope.

Definition evaluate (script : string) : M W unit := lift (pw_evaluate script).

(** 002, lines 32-37 and 47: the links now on the page are added to the
    set, then the page is scrolled to its end. *)
Definition scroll_round (seen_urls : gset string) : M W (gset string) :=
  links <- all (page_locator thread_link_selector_00002) ;;
  seen_urls1 <- collect_hrefs links seen_urls ;;
  evaluate "window.scrollTo(0, document.body.scrollHeight)" ;;;
  ret seen_urls1.

(** 002, lines 29-50: [while patience_counter < SCROLL_PATIENCE].  The
    counter is set back to 0 by a round that found a new URL, and grows by
    one otherwise. *)
Fixpoint scroll_loop (fuel : nat) (seen_urls : gset string) (patience_counter : nat)
  : M W (option (gset string)) :=
  match fuel with
  | 0 => ret None
  | S fuel' =>
      if bool_decide (patience_counter < SCROLL_PATIENCE) then
        seen_urls1 <- scroll_round seen_urls ;;
        scroll_loop fuel' seen_urls1
          (if bool_decide (size seen_urls < size seen_urls1) then 0
           else patience_counter + 1)
      else ret (Some seen_urls)
  end.

(** [get_all_thread_urls] of 002, lines 15-53. *)
Definition get_all_thread_urls_002 (fuel : nat) : M W (option (list string)) :=
  goto GROUP_URL ;;;
  wait_for_selector thread_link_selector_00002 ;;;
  r <- scroll_loop fuel ∅ 0 ;;
  ret (elements <$> r).

(** [idle k seen st st']: [k] rounds in a row, from [st] to [st'], none of
    which finds a URL that is not in [seen]. *)
Inductive idle : nat → gset string → St W → St W → Prop :=
| idle_O seen st : idle 0 seen st st
| idle_S k seen st seen1 st1 st' :
    scroll_round seen st = (Ok seen1, st1) →
    size seen1 ≤ size seen →
    idle k seen st1 st' →
    idle (S k) seen st st'.

(** [scrolled k seen st seen' st']: [k] rounds lead from the set [seen] in
    [st] to the set [seen'] in [st']; nothing is asked of what they
    found. *)
Inductive scrolled : nat → gset string → St W → gset string → St W → Prop :=
| scrolled_O seen st : scrolled 0 seen st seen st
| scrolled_S k seen st seen1 st1 seen' st' :
    scroll_round seen st = (Ok seen1, st1) →
    scrolled k seen1 st1 seen' st' →
    scrolled (S k) seen st seen' st'.

End Scrolling.

(** ** A scripted browser whose topic list is reached by page number *)

Module Paged.

(** As [Fake], but a navigation to [page_url n] shows the [n]-th page of
    the topic list, and times out when there is none. *)
Definition do_goto (target : string) (w : Fake.world) : res unit * Fake.world :=
  match list_find (fun n => page_url n = target) (seq 1 (length (Fake.fk_listings w))) with
  | Some (_, n) => (Ok tt, Fake.show None (n - 1) w)
  | None => (Raise TimeoutError, w)
  end.

Definition playwright : Playwright Fake.world := {|
  pw_goto := do_goto;
  pw_wait_for_selector := Fake.do_wait_for_selector;
  pw_wait_for_load_state := fun w => (Ok tt, w);
  pw_wait_for_timeout := fun w => (Ok tt, w);
  pw_title := Fake.do_title;
  pw_all := Fake.do_all;
  pw_text_content := Fake.do_text_content;
  pw_get_attribute := Fake.do_get_attribute;
  pw_inner_text := Fake.do_inner_text;
  pw_is_visible := Fake.do_is_visible;
  pw_click := Fake.do_click
|}.

(** Scrolling shows the next state of the topic list, if there is one. *)
Definition do_scroll (script : string) (w : Fake.world) : res unit * Fake.world :=
  (Ok tt, Fake.show None (S (Fake.fk_listing w)) w).

End Paged.

Module MoreRuns.
Import Fake.

(** Threads A and B, both scraped before. *)
Definition st_done : St world :=
  start (Runs.fs_ready [Runs.topic "A"]
           (Some {[ Runs.topic "A" := Runs.record_A ]}))
        Runs.site_resume.

(** Three fresh URLs, every thread loads. *)
Definition urls3 : list string := [Runs.topic "A"; Runs.topic "B"; Runs.topic "C"].
Definition st_3 : St world :=
  start (Runs.fs_ready urls3 None) (Runs.site_titled (Ok "44net@ardc.groups.io | t")).

(** A topic list whose first page never shows a link. *)
Definition st_blank : St world :=
  start Runs.fs_auth_only
        (open (fun _ => None) [ {| fl_hrefs := []; fl_next := Runs.next_works |} ]).

(** The first strategy of 00002 fails with an error that is no timeout
    (more than one element matches). *)
Definition ambiguous_page : list listing :=
  [ {| fl_hrefs := [Some "/g/44net/topic/1"];
       fl_next := [(page_locator ("a[aria-label=" +:+ dq +:+ "Next page" +:+ dq +:+ "]"),
                    (Raise OtherError, Ok tt))] |} ].

Definition st_ambiguous : St world :=
  start Runs.fs_auth_only (open (fun _ => None) ambiguous_page).

(** Three numbered pages, the second without links. *)
Definition st_numbered : St world :=
  start Runs.fs_auth_only (open (fun _ => None) Runs.three_pages).

(** Two numbered pages with links. *)
Definition two_pages : list listing :=
  [ {| fl_hrefs := [Some "/g/44net/topic/2"; Some "/g/44net/topic/1"]; fl_next := [] |};
    {| fl_hrefs := [Some "/g/44net/topic/3"; None]; fl_next := [] |} ].

Definition st_two : St world := start Runs.fs_auth_only (open (fun _ => None) two_pages).


(** A topic list that grows twice while it is scrolled, then stays. *)
Definition growing_list : list listing :=
  [ {| fl_hrefs := [Some "/g/44net/topic/1"]; fl_next := [] |};
    {| fl_hrefs := [Some "/g/44net/topic/1"; Some "/g/44net/topic/2"]; fl_next := [] |};
    {| fl_hrefs := [Some "/g/44net/topic/1"; Some "/g/44net/topic/2"]; fl_next := [] |} ].

Definition st_growing : St world :=
  start Runs.fs_auth_only (open (fun _ => None) growing_list).

End MoreRuns.

(** ** The visits of an extraction run *)

(** What the calls of [scrape_thread_page] in a run came to: the calls that
    returned, each with its URL and what it returned, in order; and the URL
    at which a call raised, with the exception, if one did. *)
Record Visits := {
  returned : list (string * option ThreadRecord);
  raised : option (string * exn) }.

(** The URLs that were navigated to. *)
Definition visited (v : Visits) : list string :=
  (returned v).*1 ++ match raised v with
                     | Some (target, _) => [target]
                     | None => []
                     end.

(** Lines 127-128, call after call: [scraped_data[url] = thread_data] for
    every call that returned a record. *)
Definition store_all (outcomes : list (string * option ThreadRecord))
    (scraped_data : gmap string ThreadRecord) : gmap string ThreadRecord :=
  foldl (fun d o => match o.2 with
                    | Some r => <[o.1 := r]> d
                    | None => d
                    end) scraped_data outcomes.

Section VisitShapes.
Context {W : Type} `{!Playwright W}.

(** [scrape_thread_page] called on the URLs in turn, each call in the
    browser as the call before left it, up to the first call that
    raises. *)
Fixpoint thread_visits (urls : list string) (st : St W) : Visits :=
  match urls with
  | [] => {| returned := []; raised := None |}
  | target :: rest =>
      match scrape_thread_page target st with
      | (Ok thread_data, st1) =>
          let v := thread_visits rest st1 in
          {| returned := (target, thread_data) :: returned v; raised := raised v |}
      | (Raise e, _) => {| returned := []; raised := Some (target, e) |}
      end
  end.

(** The states in which the message elements are read, one after the
    other. *)
Fixpoint message_states (message_elements : list Locator) (st : St W) : list (St W) :=
  match message_elements with
  | [] => []
  | msg_element :: rest => st :: message_states rest (scrape_message msg_element st).2
  end.

(** A computation that sees the browser only: neither its result nor the
    browser it leaves depend on the files or on the events so far. *)
Definition browser_only {A} (m : M W A) : Prop :=
  ∀ st st', browser st = browser st' →
    (m st).1 = (m st').1 ∧ browser (m st).2 = browser (m st').2.

End VisitShapes.

(** * Properties *)

(** ** Python string primitives *)

Example splitlines_crlf :
  Py.splitlines (String "a" (String Py.CR (String Py.LF
                   (String "b" (String Py.LF (String Py.LF "c"))))))
  = ["a"; "b"; ""; "c"].
Proof. reflexivity. Qed.

Example splitlines_trailing : Py.splitlines (String "a" (String Py.LF "")) = ["a"].
Proof. reflexivity. Qed.

Example splitlines_empty : Py.splitlines "" = [].
Proof. reflexivity. Qed.

Example split_title :
  Py.split "|" "44net@ardc.groups.io | 44. And aredn"
  = ["44net@ardc.groups.io "; " 44. And aredn"].
Proof. reflexivity. Qed.

Example split_empty : Py.split "|" "" = [""].
Proof. reflexivity. Qed.

Example strip_both : Py.strip "  a b  " = "a b".
Proof. reflexivity. Qed.

Example parse_title_sample :
  parse_title "44net@ardc.groups.io | 44. And aredn" = "44. And aredn".
Proof. reflexivity. Qed.

Example parse_title_two_delimiters : parse_title "a | b | c" = "c".
Proof. reflexivity. Qed.

Example record_title_trailing_delimiter : record_title "44net@ardc.groups.io |" = "N/A".
Proof. reflexivity. Qed.

Example clean_body_sample :
  clean_body ("  first " +:+ String Py.CR (String Py.LF ("   " +:+ String Py.LF " second")))
  = "first" +:+ String Py.LF "second".
Proof. reflexivity. Qed.

Section PyFacts.
Import Py.

Lemma lstrip_head s : starts_with_space (lstrip s) = false.
Proof.
  induction s as [|c s IH]; simpl; [done|].
  destruct (is_space c) eqn:E; [done|]. simpl. by rewrite E.
Qed.

Lemma lstrip_id s : starts_with_space s = false → lstrip s = s.
Proof. destruct s as [|c s]; simpl; [done|]. by intros ->. Qed.

Lemma rstrip_idemp s : rstrip (rstrip s) = rstrip s.
Proof.
  induction s as [|c s IH]; simpl; [done|].
  destruct (rstrip s) as [|d r] eqn:E.
  - destruct (is_space c) eqn:Ec; simpl; [done|]. by rewrite Ec.
  - simpl. simpl in IH. by rewrite IH.
Qed.

Lemma rstrip_cons c s :
  is_space c = false → rstrip (String c s) = String c (rstrip s).
Proof. intros Hc. simpl. destruct (rstrip s); by rewrite ?Hc. Qed.

Lemma rstrip_end s : ends_with_space (rstrip s) = false.
Proof.
  induction s as [|c s IH]; simpl; [done|].
  destruct (rstrip s) as [|d r] eqn:E.
  - destruct (is_space c) eqn:Ec; simpl; done.
  - done.
Qed.

Lemma rstrip_id s : ends_with_space s = false → rstrip s = s.
Proof.
  induction s as [|c s IH]; [done|].
  destruct s as [|d s].
  - simpl. by intros ->.
  - intros H. change (ends_with_space (String d s) = false) in H.
    change (rstrip (String c (String d s)))
      with (match rstrip (String d s) with
            | "" => if is_space c then "" else String c ""
            | r => String c r end).
    by rewrite (IH H).
Qed.

Lemma rstrip_start s :
  starts_with_space s = false → starts_with_space (rstrip s) = false.
Proof.
  destruct s as [|c s]; [done|]. simpl. intros Hc.
  destruct (rstrip s); by rewrite ?Hc.
Qed.

Lemma strip_start s : starts_with_space (strip s) = false.
Proof. apply rstrip_start, lstrip_head. Qed.

Lemma strip_end s : ends_with_space (strip s) = false.
Proof. apply rstrip_end. Qed.

Lemma strip_id s :
  starts_with_space s = false → ends_with_space s = false → strip s = s.
Proof. intros H1 H2. unfold strip. by rewrite (lstrip_id _ H1), (rstrip_id _ H2). Qed.

Lemma strip_idemp s : strip (strip s) = strip s.
Proof. apply strip_id; [apply strip_start | apply strip_end]. Qed.

Lemma app_cons c s t : String c s +:+ t = String c (s +:+ t).
Proof. reflexivity. Qed.

Lemma lstrip_no_lb s : has_linebreak s = false → has_linebreak (lstrip s) = false.
Proof.
  induction s as [|c s IH]; [done|]. simpl.
  intros [? ?]%orb_false_iff. destruct (is_space c); [auto|]. simpl. by apply orb_false_iff.
Qed.

Lemma rstrip_no_lb s : has_linebreak s = false → has_linebreak (rstrip s) = false.
Proof.
  induction s as [|c s IH]; [done|]. simpl.
  intros [Hc Hs]%orb_false_iff. specialize (IH Hs).
  destruct (rstrip s) as [|d r].
  - destruct (is_space c); simpl; [done|]. by rewrite Hc.
  - change (is_linebreak c || has_linebreak (String d r) = false).
    by rewrite Hc, IH.
Qed.

Lemma strip_no_lb s : has_linebreak s = false → has_linebreak (strip s) = false.
Proof. intros. by apply rstrip_no_lb, lstrip_no_lb. Qed.

Lemma cons_line_no_lb c ls :
  is_linebreak c = false →
  Forall (fun l => has_linebreak l = false) ls →
  Forall (fun l => has_linebreak l = false) (cons_line c ls).
Proof.
  intros Hc [|l ls' Hl Hls]; simpl; constructor; simpl; rewrite ?Hc; auto.
Qed.

(** No line of [splitlines] contains a line boundary. *)
Lemma splitlines_go_no_lb b s :
  Forall (fun l => has_linebreak l = false) (splitlines_go b s).
Proof.
  revert b. induction s as [|c s IH]; intros b; simpl; [constructor|].
  destruct (b && bool_decide (c = LF)); [apply IH|].
  destruct (is_linebreak c) eqn:Hc.
  - constructor; [done | apply IH].
  - apply cons_line_no_lb; [done | apply IH].
Qed.

Lemma splitlines_line_then_LF l s :
  has_linebreak l = false →
  splitlines (l +:+ String LF s) = l :: splitlines s.
Proof.
  unfold splitlines. induction l as [|c l IH].
  - reflexivity.
  - simpl has_linebreak. intros [Hc Hl]%orb_false_iff.
    rewrite app_cons. simpl. rewrite Hc. by rewrite (IH Hl).
Qed.

Lemma splitlines_one_line l :
  l ≠ "" → has_linebreak l = false → splitlines l = [l].
Proof.
  unfold splitlines. induction l as [|c l IH]; [done|].
  intros _. simpl has_linebreak. intros [Hc Hl]%orb_false_iff.
  simpl. rewrite Hc. destruct l as [|d l]; [done|].
  by rewrite IH.
Qed.

(** Joining lines with LF and splitting again gives the lines back, when
    no line is empty or holds a line boundary. *)
Lemma splitlines_join ls :
  Forall (fun l => l ≠ "" ∧ has_linebreak l = false) ls →
  splitlines (join (String LF "") ls) = ls.
Proof.
  induction 1 as [|l ls [Hne Hlb] Hls IH]; [done|].
  destruct ls as [|l' ls].
  - by apply splitlines_one_line.
  - change (join (String LF "") (l :: l' :: ls))
      with (l +:+ String LF (join (String LF "") (l' :: ls))).
    rewrite splitlines_line_then_LF by done. by rewrite IH.
Qed.

Lemma truthy_ne s : truthy s = true ↔ s ≠ "".
Proof. destruct s; simpl; split; congruence. Qed.

End PyFacts.

(** ** Body clean-up and title parsing *)

Section TextFacts.
Import Py.






Lemma clean_lines_of_body body :
  Forall clean_line
    (map strip (List.filter (fun line => truthy (strip line)) (splitlines body))).
Proof.
  apply Forall_forall. intros l Hl%list_elem_of_In.
  apply in_map_iff in Hl as (l0 & <- & Hl0).
  apply filter_In in Hl0 as [Hin Htr].
  split; [by apply truthy_ne|]. split; [|apply strip_idemp].
  apply strip_no_lb.
  pose proof (splitlines_go_no_lb false body) as Hall.
  rewrite Forall_forall in Hall. by apply Hall, list_elem_of_In.
Qed.

Lemma clean_lines_fixed ls :
  Forall clean_line ls →
  map strip (List.filter (fun line => truthy (strip line)) ls) = ls.
Proof.
  induction 1 as [|l ls (Hne & _ & Hs) _ IH]; [done|].
  simpl. rewrite Hs. apply truthy_ne in Hne. rewrite Hne. simpl. by rewrite Hs, IH.
Qed.

Lemma splitlines_clean_body body :
  splitlines (clean_body body)
  = map strip (List.filter (fun line => truthy (strip line)) (splitlines body)).
Proof.
  unfold clean_body. apply splitlines_join.
  eapply Forall_impl; [apply clean_lines_of_body|].
  intros l (? & ? & _). done.
Qed.

End TextFacts.

(** C10.  The clean-up of a message body (trim each line, drop the blank
    ones, join with newlines) is idempotent, and for every input the lines
    of its output are non-empty and neither start nor end with
    whitespace. *)
Theorem clean_body_idempotent (body : string) :
  clean_body (clean_body body) = clean_body body ∧
  ∀ line, line ∈ Py.splitlines (clean_body body) →
    line ≠ "" ∧ Py.starts_with_space line = false ∧ Py.ends_with_space line = false.
Proof.
  split.
  - unfold clean_body at 1. rewrite splitlines_clean_body.
    by rewrite clean_lines_fixed by apply clean_lines_of_body.
  - rewrite splitlines_clean_body. intros line Hin.
    pose proof (clean_lines_of_body body) as Hall.
    rewrite Forall_forall in Hall. destruct (Hall _ Hin) as (Hne & _ & Hs).
    split; [done|]. rewrite <- Hs. split; [apply strip_start | apply strip_end].
Qed.

(** ** The effect monad *)

Section MonadFacts.
Context {W : Type} `{!Playwright W}.

Lemma quiet_ret {A} (a : A) : quiet (W:=W) (ret a).
Proof. done. Qed.

Lemma quiet_lift {A} (f : W → res A * W) : quiet (lift f).
Proof. intros st. unfold lift. by destruct (f (browser st)). Qed.

Lemma quiet_bind {A B} (m : M W A) (k : A → M W B) :
  quiet m → (∀ a, quiet (k a)) → quiet (bind m k).
Proof.
  intros Hm Hk st. unfold bind. specialize (Hm st).
  destruct (m st) as [[a|e] st1]; simpl in *; [|done].
  destruct (Hk a st1) as [-> ->]. done.
Qed.

Lemma quiet_catch {A} (m : M W A) (h : exn → M W A) :
  quiet m → (∀ e, quiet (h e)) → quiet (catch m h).
Proof.
  intros Hm Hh st. unfold catch. specialize (Hm st).
  destruct (m st) as [[a|e] st1]; simpl in *; [done|].
  destruct (Hh e st1) as [-> ->]. done.
Qed.

(** A handler that returns a value makes the computation total. *)
Lemma catch_ret_total {A} (m : M W A) (d : A) st :
  ∃ a st', catch m (fun _ => ret d) st = (Ok a, st').
Proof. unfold catch, ret. destruct (m st) as [[a|e] st1]; eauto. Qed.

Lemma browser_only_ret {A} (a : A) : browser_only (W:=W) (ret a).
Proof. by intros st st' Hb. Qed.

Lemma browser_only_lift {A} (f : W → res A * W) : browser_only (lift f).
Proof. intros st st' Hb. unfold lift. rewrite Hb. by destruct (f (browser st')). Qed.

Lemma browser_only_goto target : browser_only (W:=W) (goto target).
Proof. intros st st' Hb. unfold goto. by apply browser_only_lift. Qed.

Lemma browser_only_bind {A B} (m : M W A) (k : A → M W B) :
  browser_only m → (∀ a, browser_only (k a)) → browser_only (bind m k).
Proof.
  intros Hm Hk st st' Hb. unfold bind. destruct (Hm st st' Hb) as [Hr Hb1].
  destruct (m st) as [[a|e] s1], (m st') as [[a'|e'] s1']; simpl in *; simplify_eq;
    [by apply Hk | done].
Qed.

Lemma browser_only_catch {A} (m : M W A) (h : exn → M W A) :
  browser_only m → (∀ e, browser_only (h e)) → browser_only (catch m h).
Proof.
  intros Hm Hh st st' Hb. unfold catch. destruct (Hm st st' Hb) as [Hr Hb1].
  destruct (m st) as [[a|e] s1], (m st') as [[a'|e'] s1']; simpl in *; simplify_eq;
    [done | by apply Hh].
Qed.

End MonadFacts.

Create HintDb browser.
#[global] Hint Resolve browser_only_ret browser_only_lift browser_only_goto : browser.
#[global] Hint Extern 2 (browser_only (bind _ _)) =>
  apply browser_only_bind; [|intros] : browser.
#[global] Hint Extern 2 (browser_only (catch _ _)) =>
  apply browser_only_catch; [|intros] : browser.
#[global] Hint Extern 5 (browser_only (if ?b then _ else _)) => destruct b : browser.
#[global] Hint Unfold wait_for_selector wait_for_load_state wait_for_timeout page_title all
  text_content get_attribute inner_text is_visible click try_assign : browser.

Create HintDb quiet.
#[global] Hint Resolve quiet_ret quiet_lift : quiet.
#[global] Hint Extern 2 (quiet (bind _ _)) => apply quiet_bind; [|intros] : quiet.
#[global] Hint Extern 2 (quiet (catch _ _)) => apply quiet_catch; [|intros] : quiet.
#[global] Hint Extern 5 (quiet (if ?b then _ else _)) => destruct b : quiet.
#[global] Hint Extern 5 (quiet (match ?b with Some _ => _ | None => _ end)) => destruct b : quiet.
#[global] Hint Unfold wait_for_selector wait_for_load_state wait_for_timeout page_title all
  text_content get_attribute inner_text is_visible click try_assign : quiet.

(** ** Extraction of one thread *)

Section ExtractionFacts.
Context {W : Type} `{!Playwright W}.
Implicit Types st : St W.

Lemma quiet_scrape_title : quiet (scrape_title (W:=W)).
Proof. unfold scrape_title. autounfold with quiet. auto 10 with quiet. Qed.

Lemma quiet_scrape_message el : quiet (scrape_message (W:=W) el).
Proof. unfold scrape_message. autounfold with quiet. auto 20 with quiet. Qed.

Lemma quiet_scrape_messages els acc : quiet (scrape_messages (W:=W) els acc).
Proof.
  revert acc. induction els as [|el els IH]; intros acc; simpl; [apply quiet_ret|].
  apply quiet_bind; [apply quiet_scrape_message | auto].
Qed.

Lemma scrape_title_eq st :
  scrape_title st =
  (Ok (match (page_title st).1 with
       | Ok full_title => parse_title full_title
       | Raise _ => "Title not found"
       end), (page_title st).2).
Proof.
  unfold scrape_title, catch, bind, ret.
  by destruct (page_title st) as [[t|e] st1].
Qed.

Lemma open_thread_total target st :
  ∃ ready st1, open_thread target st = (Ok ready, st1).
Proof. apply catch_ret_total. Qed.

Lemma scrape_message_total el st :
  ∃ m st', scrape_message el st = (Ok m, st').
Proof.
  unfold scrape_message, bind, try_assign.
  destruct (catch_ret_total (text_content (loc_locator el "u")) (Some "N/A") st)
    as (a & s1 & ->).
  destruct (catch_ret_total (get_attribute (loc_locator el "span[title]") "title")
              (Some "N/A") s1) as (ts & s2 & ->).
  match goal with |- context [catch ?m (fun _ => ret "N/A") s2] =>
    destruct (catch_ret_total m "N/A" s2) as (b & s3 & ->) end.
  unfold ret. eauto.
Qed.

(** The loop over the message elements never raises and appends one
    message per element. *)
Lemma scrape_messages_total els acc st :
  ∃ ms st', scrape_messages els acc st = (Ok (acc ++ ms), st') ∧ length ms = length els.
Proof.
  revert acc st. induction els as [|el els IH]; intros acc st; simpl.
  - exists [], st. by rewrite app_nil_r.
  - unfold bind. destruct (scrape_message_total el st) as (m & s1 & ->).
    destruct (IH (acc ++ [m]) s1) as (ms & s2 & -> & Hlen).
    exists (m :: ms), s2. rewrite <- app_assoc. simpl. by rewrite Hlen.
Qed.

(** [scrape_thread_page] unfolded along its three outcomes. *)
Lemma scrape_thread_page_eq target st :
  scrape_thread_page target st =
  match open_thread target st with
  | (Ok true, st1) =>
      match all (page_locator "div.expanded-message") (page_title st1).2 with
      | (Ok els, st3) =>
          let ms := scrape_messages els [] st3 in
          (match ms.1 with
           | Ok messages =>
               Ok (Some {| url := target;
                           title := strip_or_na
                             (Some (match (page_title st1).1 with
                                    | Ok full_title => parse_title full_title
                                    | Raise _ => "Title not found"
                                    end));
                           messages := messages |})
           | Raise e => Raise e
           end, ms.2)
      | (Raise e, st3) => (Raise e, st3)
      end
  | (Ok false, st1) => (Ok None, st1)
  | (Raise e, st1) => (Raise e, st1)
  end.
Proof.
  unfold scrape_thread_page, bind at 1.
  destruct (open_thread target st) as [[[|]|e] st1]; [|done..].
  unfold bind at 1. rewrite scrape_title_eq. simpl.
  unfold bind at 1.
  destruct (all (page_locator "div.expanded-message") (page_title st1).2)
    as [[els|e] st3]; [|done].
  unfold bind, ret.
  by destruct (scrape_messages els [] st3) as [[ms|e] st4].
Qed.



Lemma navigations_app evs1 evs2 :
  navigations (evs1 ++ evs2) = navigations evs1 ++ navigations evs2.
Proof.
  induction evs1 as [|[] evs1 IH]; simpl; by rewrite ?IH.
Qed.

Lemma flush_points_app n evs1 evs2 :
  flush_points n (evs1 ++ evs2)
  = flush_points n evs1 ++ flush_points (n + length (navigations evs1)) evs2.
Proof.
  revert n. induction evs1 as [|[] evs1 IH]; intros n; simpl.
  - by rewrite Nat.add_0_r.
  - rewrite IH. do 2 f_equal. lia.
  - by rewrite IH.
  - by rewrite IH.
Qed.

Lemma interrupted_app evs1 evs2 :
  interrupted (evs1 ++ evs2) = interrupted evs1 || interrupted evs2.
Proof. apply existsb_app. Qed.

(** Opening a thread navigates once, and does nothing else to the files
    and the events. *)
Lemma open_thread_events target st :
  files (open_thread target st).2 = files st ∧
  events (open_thread target st).2 = events st ++ [EvGoto target].
Proof.
  unfold open_thread, catch, bind, goto, wait_for_selector, lift, ret, log. simpl.
  destruct (pw_goto target (browser st)) as [[[]|e] w1]; simpl; [|done].
  destruct (pw_wait_for_selector _ w1) as [[[]|e] w2]; done.
Qed.

Lemma scrape_thread_page_events target st :
  files (scrape_thread_page target st).2 = files st ∧
  events (scrape_thread_page target st).2 = events st ++ [EvGoto target].
Proof.
  rewrite scrape_thread_page_eq.
  destruct (open_thread_events target st) as [Hf He].
  destruct (open_thread target st) as [[[|]|e] st1]; cbn [fst snd] in *; [|done..].
  destruct (quiet_lift pw_title st1) as [Hf1 He1].
  change (lift pw_title) with (page_title (W:=W)) in Hf1, He1.
  set (st2 := (page_title st1).2) in *.
  destruct (quiet_lift (pw_all (page_locator "div.expanded-message")) st2) as [Hf2 He2].
  change (lift (pw_all ?l)) with (all (W:=W) l) in Hf2, He2.
  destruct (all (page_locator "div.expanded-message") st2) as [[els|e] st3];
    cbn [fst snd] in *.
  - destruct (quiet_scrape_messages els [] st3) as [Hf3 He3].
    split; congruence.
  - split; congruence.
Qed.

Lemma scrape_thread_page_url target st r st' :
  scrape_thread_page target st = (Ok (Some r), st') → url r = target.
Proof.
  rewrite scrape_thread_page_eq.
  destruct (open_thread target st) as [[[|]|e] st1]; [|done..].
  simpl. destruct (all _ _) as [[els|e] st3]; [|done].
  destruct (scrape_messages els [] st3) as [[ms|e] st4]; [|done].
  simpl. by intros [= <- _].
Qed.

Lemma write_data_events data st :
  events (write_data data st) = events st ++ [EvWrite DATA_FILE].
Proof. done. Qed.

Lemma write_data_file data st :
  scraped_data_json (files (write_data data st)) = Some data.
Proof. done. Qed.

(** What the loop over the URLs does, whatever the browser answers: the
    dictionary gains records for visited URLs only, each under its own URL;
    the URLs are visited in order; a loop that is not left by an exception
    visits them all and flushes where [save_due] says. *)
Lemma scrape_loop_spec save_due total_urls urls i data st :
  ∃ new evs,
    (scrape_loop save_due i total_urls urls data st).1.2 = new ∪ data ∧
    dom new ⊆ list_to_set (navigations evs) ∧
    (∀ k v, new !! k = Some v → url v = k) ∧
    events (scrape_loop save_due i total_urls urls data st).2 = events st ++ evs ∧
    navigations evs `prefix_of` urls ∧
    interrupted evs = false ∧
    ((scrape_loop save_due i total_urls urls data st).1.1 = Ok tt →
       navigations evs = urls ∧
       ∀ k, flush_points k evs = loop_flushes save_due i total_urls (length urls) k).
Proof.
  revert i data st. induction urls as [|target rest IH]; intros i data st.
  - exists ∅, []. simpl. rewrite (left_id_L ∅ (∪)), app_nil_r.
    repeat split; try done; by intros ?? ?%lookup_empty_Some.
  - simpl.
    destruct (scrape_thread_page_events target st) as [_ He].
    destruct (scrape_thread_page target st) as [[thread_data|e] st1] eqn:Hpage;
      cbn [fst snd] in He.
    + set (data1 := match thread_data with
                    | Some r => <[target:=r]> data
                    | None => data
                    end).
      set (st2 := if save_due i total_urls then write_data data1 st1 else st1).
      destruct (IH (S i) data1 st2) as (new & evs & Hdata & Hdom & Hurl & Hev & Hpre & Hint & Hok).
      exists (new ∪ match thread_data with
                    | Some r => {[target := r]}
                    | None => ∅
                    end),
             (EvGoto target :: (if save_due i total_urls then [EvWrite DATA_FILE] else []) ++ evs).
      assert (navigations ((if save_due i total_urls then [EvWrite DATA_FILE] else []) ++ evs)
              = navigations evs) as Hnav by (by destruct (save_due i total_urls)).
      split; [|split; [|split; [|split; [|split; [|split]]]]].
      * rewrite Hdata. subst data1. destruct thread_data as [r|].
        -- by rewrite insert_union_singleton_l, (assoc_L (∪)).
        -- by rewrite (right_id_L ∅ (∪)).
      * simpl. rewrite Hnav. destruct thread_data as [r|].
        -- rewrite dom_union_L, dom_singleton_L. apply union_least.
           ++ etrans; [apply Hdom | apply union_subseteq_r].
           ++ apply union_subseteq_l.
        -- rewrite (right_id_L ∅ (∪)). etrans; [apply Hdom | apply union_subseteq_r].
      * intros k v [Hk|[_ Hk]]%lookup_union_Some_raw; [by apply Hurl|].
        destruct thread_data as [r|]; [|by apply lookup_empty_Some in Hk].
        apply lookup_singleton_Some in Hk as [<- <-].
        by apply (scrape_thread_page_url _ _ _ _ Hpage).
      * rewrite Hev. subst st2.
        destruct (save_due i total_urls); [rewrite write_data_events|];
          rewrite He, <- ?app_assoc; done.
      * simpl. rewrite Hnav. by apply prefix_cons.
      * simpl. rewrite interrupted_app, Hint. by destruct (save_due i total_urls).
      * intros Hr. destruct (Hok Hr) as [Hall Hfl]. split.
        -- simpl. by rewrite Hnav, Hall.
        -- intros k. simpl. rewrite flush_points_app, Hfl.
           destruct (save_due i total_urls); simpl; by rewrite ?Nat.add_0_r.
    + exists ∅, [EvGoto target]. simpl. rewrite (left_id_L ∅ (∪)).
      repeat split; try done.
      apply prefix_cons, prefix_nil.
Qed.

(** The message at each position is the one [scrape_message] gives for the
    element at that position, read in the state in which the elements
    before it left the browser. *)
Lemma scrape_messages_pointwise els acc st :
  ∃ ms st', scrape_messages els acc st = (Ok (acc ++ ms), st') ∧
    length ms = length els ∧
    ∀ i el s, els !! i = Some el → message_states els st !! i = Some s →
      ∃ m, ms !! i = Some m ∧ (scrape_message el s).1 = Ok m.
Proof.
  revert acc st. induction els as [|el els IH]; intros acc st.
  - exists [], st. simpl. rewrite app_nil_r. repeat split; try done.
  - destruct (scrape_message_total el st) as (m & s1 & Hm).
    destruct (IH (acc ++ [m]) s1) as (ms & s2 & Hms & Hlen & Hpt).
    exists (m :: ms), s2. split; [|split].
    + cbn [scrape_messages]. unfold bind. rewrite Hm, Hms, <- app_assoc. done.
    + simpl. by rewrite Hlen.
    + intros [|i] el' s Hel Hs; cbn [message_states] in Hs; simpl in Hel, Hs.
      * simplify_eq. exists m. by rewrite Hm.
      * rewrite Hm in Hs. by apply Hpt.
Qed.

(** C6.  Every field of a message is extracted on its own: a field whose
    element is missing or whose extraction raises becomes the sentinel
    ["N/A"], the other fields keep what was extracted.  The loop over the
    message elements never raises: it yields one message per element, in
    order, each being the message read from that element; and the record
    returned for the thread holds exactly these messages, whatever the
    fields did. *)
Theorem graceful_field_degradation :
  (∀ msg_element st,
     let a := text_content (loc_locator msg_element "u") st in
     let t := get_attribute (loc_locator msg_element "span[title]") "title" a.2 in
     let b := inner_text (loc_locator msg_element "div.user-content") t.2 in
     ∃ m, scrape_message msg_element st = (Ok m, b.2) ∧
       ((∀ e, a.1 = Raise e → author m = "N/A") ∧
        (a.1 = Ok None → author m = "N/A") ∧
        (∀ s, a.1 = Ok (Some s) → author m = if Py.truthy s then Py.strip s else "N/A")) ∧
       ((∀ e, t.1 = Raise e → timestamp m = "N/A") ∧
        (t.1 = Ok None → timestamp m = "N/A") ∧
        (∀ s, t.1 = Ok (Some s) → timestamp m = if Py.truthy s then Py.strip s else "N/A")) ∧
       ((∀ e, b.1 = Raise e → body m = "N/A") ∧
        (∀ s, b.1 = Ok s → body m = clean_body s))) ∧
  (∀ message_elements st,
     ∃ messages st', scrape_messages message_elements [] st = (Ok messages, st') ∧
       length messages = length message_elements ∧
       ∀ i msg_element s,
         message_elements !! i = Some msg_element →
         message_states message_elements st !! i = Some s →
         ∃ m, messages !! i = Some m ∧ (scrape_message msg_element s).1 = Ok m) ∧
  (∀ target st st1 message_elements st3,
     open_thread target st = (Ok true, st1) →
     all (page_locator "div.expanded-message") (page_title st1).2 = (Ok message_elements, st3) →
     ∃ r st', scrape_thread_page target st = (Ok (Some r), st') ∧
       url r = target ∧
       length (messages r) = length message_elements ∧
       ∀ i msg_element s,
         message_elements !! i = Some msg_element →
         message_states message_elements st3 !! i = Some s →
         ∃ m, messages r !! i = Some m ∧ (scrape_message msg_element s).1 = Ok m).
Proof.
  split; [|split].
  - intros el st. cbv zeta.
    unfold scrape_message, bind, try_assign, catch, ret.
    destruct (text_content (loc_locator el "u") st) as [[a|ea] s1]; cbn [fst snd];
      (destruct (get_attribute (loc_locator el "span[title]") "title" s1)
         as [[t|et] s2]; cbn [fst snd]);
      (destruct (inner_text (loc_locator el "div.user-content") s2)
         as [[b|eb] s3]; cbn [fst snd]);
      eexists; (split; [reflexivity|]); cbn;
      repeat split; intros; simplify_eq; done.
  - intros els st. destruct (scrape_messages_pointwise els [] st) as (ms & st' & Heq & Hlen & Hpt).
    eauto.
  - intros target st st1 els st3 Hopen Hall.
    rewrite scrape_thread_page_eq, Hopen, Hall. cbn [fst snd].
    destruct (scrape_messages_pointwise els [] st3) as (ms & st' & -> & Hlen & Hpt).
    cbn [fst snd]. eexists _, st'. split; [reflexivity|]. cbn [url messages]. eauto.
Qed.

(** C5.  When the navigation to a thread or the wait for its first message
    raises (a timeout in particular), [scrape_thread_page] returns [None];
    the loop goes on with the next URL and with the dictionary as it was, so
    that a URL that was absent from it and does not come again stays
    absent. *)
Theorem timeout_skips_thread save_due i total_urls target rest data st e :
  navigation_fails target st e →
  ∃ st1, scrape_thread_page target st = (Ok None, st1) ∧
    scrape_loop save_due i total_urls (target :: rest) data st
    = scrape_loop save_due (S i) total_urls rest data
        (if save_due i total_urls then write_data data st1 else st1) ∧
    (target ∉ dom data → target ∉ rest →
     target ∉ dom (scrape_loop save_due i total_urls (target :: rest) data st).1.2).
Proof.
  intros Hfail.
  assert (∃ st1, open_thread target st = (Ok false, st1)) as [st1 Hopen].
  { unfold open_thread, catch, bind, ret. destruct Hfail as [Hg|[Hg Hw]].
    - destruct (goto target st) as [[[]|e'] s1]; [done | eauto].
    - destruct (goto target st) as [[[]|e'] s1]; [|done]. cbn [fst snd] in Hw.
      destruct (wait_for_selector _ s1) as [[[]|e'] s2]; [done | eauto]. }
  assert (scrape_thread_page target st = (Ok None, st1)) as Hpage.
  { by rewrite scrape_thread_page_eq, Hopen. }
  exists st1. split; [done|].
  assert (scrape_loop save_due i total_urls (target :: rest) data st
          = scrape_loop save_due (S i) total_urls rest data
              (if save_due i total_urls then write_data data st1 else st1)) as Hloop.
  { simpl. by rewrite Hpage. }
  split; [done|]. rewrite Hloop. intros Hdata Hrest.
  destruct (scrape_loop_spec save_due total_urls rest (S i) data
              (if save_due i total_urls then write_data data st1 else st1))
    as (new & evs & -> & Hdom & _ & _ & [k Hpre] & _).
  rewrite dom_union_L. intros [Hin|Hin]%elem_of_union; [|done].
  apply Hdom, elem_of_list_to_set in Hin. apply Hrest. rewrite Hpre.
  apply elem_of_app. by left.
Qed.

(** C7.  Without the session file neither script navigates or writes: the
    run ends in the state it started in; the same holds for the extraction
    script without the file of thread URLs. *)
Theorem fatal_precondition st :
  auth_state_json (files st) = false ∨ thread_urls_json (files st) = None →
  main st = st ∧
  navigations (events (main st)) = navigations (events st) ∧
  files (main st) = files st ∧
  (auth_state_json (files st) = false → ∀ fuel, main_discovery fuel st = Some st).
Proof.
  intros Hmissing.
  assert (main st = st) as Hmain.
  { unfold main, main_with. destruct (auth_state_json (files st)); [|done].
    destruct Hmissing as [?| ->]; done. }
  rewrite Hmain. repeat split; try done.
  intros Hauth fuel. unfold main_discovery. by rewrite Hauth.
Qed.

(** What [main] does once both input files are there, for either flush
    test. *)
Lemma main_with_spec save_due st urls_to_scrape :
  auth_state_json (files st) = true →
  thread_urls_json (files st) = Some urls_to_scrape →
  let prior := default ∅ (scraped_data_json (files st)) in
  let todo := urls_to_process urls_to_scrape prior in
  ∃ evs new,
    events (main_with save_due st) = events st ++ evs ∧
    navigations evs `prefix_of` todo ∧
    default ∅ (scraped_data_json (files (main_with save_due st))) = new ∪ prior ∧
    dom new ⊆ list_to_set (navigations evs) ∧
    (∀ k r, new !! k = Some r → url r = k) ∧
    (interrupted evs = false →
       navigations evs = todo ∧
       (todo ≠ [] →
        flush_points 0 evs
        = loop_flushes save_due 0 (length todo) (length todo) 0 ++ [length todo])).
Proof.
  intros Hauth Hurls prior todo. unfold main_with. rewrite Hauth, Hurls. simpl.
  fold prior. fold todo. case_bool_decide as Htodo.
  - exists [], ∅. rewrite app_nil_r, (left_id_L ∅ (∪)), dom_empty_L, Htodo.
    repeat split; try done; by intros ?? ?%lookup_empty_Some.
  - destruct (scrape_loop_spec save_due (length todo) todo 0 prior st)
      as (new & evs & Hdata & Hdom & Hurl & Hev & Hpre & Hint & Hok).
    destruct (scrape_loop save_due 0 (length todo) todo prior st) as [[r data1] st1].
    cbn [fst snd] in *. subst data1.
    destruct r as [[]|e].
    + exists (evs ++ [EvWrite DATA_FILE]), new.
      destruct (Hok eq_refl) as [Hall Hfl].
      rewrite write_data_events, Hev, <- app_assoc, navigations_app, app_nil_r.
      repeat split; try done.
      rewrite flush_points_app, Hfl, Hall. done.
    + exists (evs ++ [EvError e; EvWrite DATA_FILE]), new.
      rewrite write_data_events. cbn [events log]. rewrite Hev, <- !app_assoc.
      rewrite navigations_app, app_nil_r.
      do 5 (split; [done|]).
      intros Hi. rewrite interrupted_app in Hi. simpl in Hi.
      by rewrite orb_true_r in Hi.
Qed.

(** [scrape_thread_page] sees the browser only: the files and the events
    of the run have no part in what it returns. *)
Lemma browser_only_scrape_messages els acc : browser_only (scrape_messages (W:=W) els acc).
Proof.
  revert acc. induction els as [|el els IH]; intros acc; simpl; [apply browser_only_ret|].
  apply browser_only_bind; [|auto].
  unfold scrape_message. autounfold with browser. auto 20 with browser.
Qed.

Lemma browser_only_scrape_thread_page target :
  browser_only (scrape_thread_page (W:=W) target).
Proof.
  unfold scrape_thread_page, open_thread, scrape_title. autounfold with browser.
  apply browser_only_bind; [auto 10 with browser|]. intros [|]; [|apply browser_only_ret].
  apply browser_only_bind; [auto 10 with browser|]. intros title.
  apply browser_only_bind; [auto with browser|]. intros els.
  apply browser_only_bind; [apply browser_only_scrape_messages|]. intros ms.
  apply browser_only_ret.
Qed.

Lemma store_all_cons target thread_data outcomes data :
  store_all ((target, thread_data) :: outcomes) data
  = store_all outcomes (match thread_data with
                        | Some r => <[target := r]> data
                        | None => data
                        end).
Proof. done. Qed.

Lemma store_all_lookup_notin outcomes data k :
  k ∉ outcomes.*1 → store_all outcomes data !! k = data !! k.
Proof.
  revert data. induction outcomes as [|[target o] outcomes IH]; intros data Hk; [done|].
  rewrite store_all_cons. rewrite fmap_cons in Hk. apply not_elem_of_cons in Hk as [Hne Hk].
  rewrite IH by done. destruct o as [r|]; [|done]. by apply lookup_insert_ne.
Qed.

Lemma store_all_lookup_Some outcomes data k r :
  store_all outcomes data !! k = Some r →
  data !! k = Some r ∨ (k, Some r) ∈ outcomes.
Proof.
  revert data. induction outcomes as [|[target o] outcomes IH]; intros data; [by left|].
  rewrite store_all_cons. intros [Hk|Hk]%IH.
  - destruct o as [r'|]; [|by left].
    apply lookup_insert_Some in Hk as [[<- <-]|[_ Hk]]; [right; left | by left].
  - right. by right.
Qed.

Lemma store_all_lookup_NoDup outcomes data k o :
  NoDup outcomes.*1 → (k, o) ∈ outcomes → data !! k = None →
  store_all outcomes data !! k = o.
Proof.
  revert data. induction outcomes as [|[target o'] outcomes IH]; intros data Hnd Hin Hk.
  - by apply elem_of_nil in Hin.
  - rewrite fmap_cons in Hnd. apply NoDup_cons in Hnd as [Hfresh Hnd].
    rewrite store_all_cons. apply elem_of_cons in Hin as [[= <- <-]|Hin].
    + rewrite store_all_lookup_notin by done.
      destruct o as [r|]; [apply lookup_insert_eq | done].
    + apply IH; [done..|].
      assert (k ≠ target) as Hne.
      { intros ->. apply Hfresh. apply (list_elem_of_fmap_2 fst) in Hin. done. }
      destruct o' as [r|]; [by rewrite lookup_insert_ne | done].
Qed.

(** The visited URLs are the first URLs of the list, and all of them when
    no call raises. *)
Lemma thread_visits_prefix urls st :
  ∃ rest, urls = visited (thread_visits urls st) ++ rest ∧
          (raised (thread_visits urls st) = None → rest = []).
Proof.
  revert st. induction urls as [|target urls IH]; intros st; simpl.
  - by exists [].
  - destruct (scrape_thread_page target st) as [[thread_data|e] st1].
    + destruct (IH st1) as (rest & Hrest & Hnone). exists rest.
      unfold visited in *. cbn [returned raised]. rewrite fmap_cons. simpl.
      split; [by f_equal | done].
    + exists urls. unfold visited. cbn [returned raised]. by split.
Qed.

(** The loop over the URLs against the calls of [scrape_thread_page] taken
    on their own: the flushes between the calls change nothing of what the
    calls return, the dictionary holds what they returned, and the loop is
    left by the exception of the first call that raises. *)
Lemma scrape_loop_visits save_due total_urls urls i data st st0 :
  browser st = browser st0 →
  (scrape_loop save_due i total_urls urls data st).1.2
  = store_all (returned (thread_visits urls st0)) data ∧
  (scrape_loop save_due i total_urls urls data st).1.1
  = match raised (thread_visits urls st0) with
    | Some (_, e) => Raise e
    | None => Ok tt
    end ∧
  navigations (events (scrape_loop save_due i total_urls urls data st).2)
  = navigations (events st) ++ visited (thread_visits urls st0).
Proof.
  revert i data st st0. induction urls as [|target urls IH]; intros i data st st0 Hb.
  - simpl. unfold visited. simpl. by rewrite app_nil_r.
  - cbn [scrape_loop thread_visits].
    destruct (browser_only_scrape_thread_page target st st0 Hb) as [Hr Hb1].
    destruct (scrape_thread_page_events target st) as [_ He].
    destruct (scrape_thread_page target st) as [[thread_data|e] st1],
             (scrape_thread_page target st0) as [[thread_data'|e'] st1'];
      cbn [fst snd] in *; simplify_eq.
    + set (data1 := match thread_data' with
                    | Some r => <[target:=r]> data
                    | None => data
                    end).
      set (st2 := if save_due i total_urls then write_data data1 st1 else st1).
      assert (browser st2 = browser st1') as Hb2.
      { subst st2. by destruct (save_due i total_urls). }
      assert (navigations (events st2) = navigations (events st) ++ [target]) as Hnav.
      { subst st2. destruct (save_due i total_urls);
          [rewrite write_data_events, navigations_app, app_nil_r|];
          by rewrite He, navigations_app. }
      destruct (IH (S i) data1 st2 st1' Hb2) as (Hdata & Hres & Hev).
      cbn [returned raised]. rewrite store_all_cons. fold data1.
      split; [done|]. split; [done|].
      rewrite Hev, Hnav, <- app_assoc. unfold visited. cbn [returned raised].
      by rewrite fmap_cons.
    + cbn [returned raised]. unfold visited. cbn [returned raised].
      rewrite He, navigations_app. done.
Qed.

(** [main] against the calls of [scrape_thread_page] taken on their own,
    for either flush test. *)
Lemma main_with_visits save_due st urls_to_scrape :
  auth_state_json (files st) = true →
  thread_urls_json (files st) = Some urls_to_scrape →
  let prior := default ∅ (scraped_data_json (files st)) in
  let run := thread_visits (urls_to_process urls_to_scrape prior) st in
  navigations (events (main_with save_due st)) = navigations (events st) ++ visited run ∧
  default ∅ (scraped_data_json (files (main_with save_due st)))
  = store_all (returned run) prior.
Proof.
  intros Hauth Hurls prior run. unfold main_with. rewrite Hauth, Hurls. simpl.
  fold prior. subst run. case_bool_decide as Htodo.
  - rewrite Htodo. simpl. unfold visited. simpl. by rewrite app_nil_r.
  - set (todo := urls_to_process urls_to_scrape prior) in *.
    destruct (scrape_loop_visits save_due (length todo) todo 0 prior st st eq_refl)
      as (Hdata & Hres & Hev).
    destruct (scrape_loop save_due 0 (length todo) todo prior st) as [[r data1] st1].
    cbn [fst snd] in *. rewrite write_data_file, write_data_events, navigations_app, app_nil_r.
    split; [|done]. destruct r as [[]|e]; [done|].
    cbn [events log]. by rewrite navigations_app, app_nil_r.
Qed.

(** C1, as amended.  Once both input files are there, the run visits the
    input URLs whose key is not in the mapping loaded at start, in the
    order of the input list, up to and including the first one at which
    [scrape_thread_page] raises, and all of them when no call raises.  The
    mapping it leaves in the data file is the loaded mapping in which
    every record that a call returned has been stored under its URL, call
    after call: every key loaded at start keeps its record, every other
    record is one that a call returned for that key, and when the input
    list names no URL twice each visited URL for which the call returned
    holds exactly what the call returned, a record or nothing. *)
Theorem resume_completeness st urls_to_scrape :
  auth_state_json (files st) = true →
  thread_urls_json (files st) = Some urls_to_scrape →
  let prior := default ∅ (scraped_data_json (files st)) in
  let todo := filter (fun target => target ∉ dom prior) urls_to_scrape in
  let run := thread_visits todo st in
  let final := default ∅ (scraped_data_json (files (main st))) in
  navigations (events (main st)) = navigations (events st) ++ visited run ∧
  (∃ rest, todo = visited run ++ rest ∧ (raised run = None → rest = [])) ∧
  final = store_all (returned run) prior ∧
  (∀ k r, prior !! k = Some r → final !! k = Some r) ∧
  (∀ k r, final !! k = Some r → prior !! k = Some r ∨ (k, Some r) ∈ returned run) ∧
  (NoDup urls_to_scrape → ∀ k o, (k, o) ∈ returned run → final !! k = o).
Proof.
  intros Hauth Hurls prior todo run final.
  destruct (main_with_visits save_due_03 st urls_to_scrape Hauth Hurls) as [Hnav Hfinal].
  fold (main st) in Hnav, Hfinal. fold prior in Hnav, Hfinal.
  change (urls_to_process urls_to_scrape prior) with todo in Hnav, Hfinal.
  fold run in Hnav, Hfinal. fold final in Hfinal.
  destruct (thread_visits_prefix todo st) as (rest & Hrest & Hnone). fold run in Hrest, Hnone.
  assert (∀ k, k ∈ (returned run).*1 → k ∈ todo) as Hsub.
  { intros k Hk. rewrite Hrest. unfold visited. rewrite !elem_of_app. by left; left. }
  assert (∀ k, k ∈ (returned run).*1 → prior !! k = None) as Hfresh.
  { intros k Hk%Hsub. subst todo. apply list_elem_of_filter in Hk as [Hk _].
    by apply not_elem_of_dom in Hk. }
  split; [done|]. split; [by exists rest|]. split; [done|]. split; [|split].
  - intros k r Hk. rewrite Hfinal, store_all_lookup_notin; [done|].
    intros Hin%Hfresh. congruence.
  - intros k r. rewrite Hfinal. apply store_all_lookup_Some.
  - intros Hnd k o Hin. rewrite Hfinal. apply store_all_lookup_NoDup; [|done|].
    + assert (NoDup todo) as Htodo by (subst todo; by apply NoDup_filter).
      rewrite Hrest in Htodo. unfold visited in Htodo.
      by apply NoDup_app in Htodo as [[Hret _]%NoDup_app _].
    + apply Hfresh. by apply (list_elem_of_fmap_2 fst) in Hin.
Qed.

(** The flush points of an uninterrupted run over 23 URLs, for either
    flush test. *)
Lemma flush_points_23 save_due st urls_to_scrape evs :
  auth_state_json (files st) = true →
  thread_urls_json (files st) = Some urls_to_scrape →
  length (urls_to_process urls_to_scrape (default ∅ (scraped_data_json (files st)))) = 23 →
  events (main_with save_due st) = events st ++ evs →
  interrupted evs = false →
  flush_points 0 evs = loop_flushes save_due 0 23 23 0 ++ [23].
Proof.
  intros Hauth Hurls Hlen Hev Hint.
  destruct (main_with_spec save_due st urls_to_scrape Hauth Hurls)
    as (evs' & new & Hev' & _ & _ & _ & _ & Hok).
  rewrite Hev in Hev'. apply app_inv_head in Hev' as <-.
  destruct (Hok Hint) as [_ Hfl]. rewrite Hlen in Hfl. apply Hfl.
  intros Hnil. by rewrite Hnil in Hlen.
Qed.

(** C4, as amended.  With batch size 10 and 23 URLs to extract, a run
    that no exception interrupts writes the data file four times: after the
    10th, the 20th and the 23rd URL inside the loop, and once more when the
    loop is over. *)
Theorem flush_cadence st urls_to_scrape evs :
  auth_state_json (files st) = true →
  thread_urls_json (files st) = Some urls_to_scrape →
  length (urls_to_process urls_to_scrape (default ∅ (scraped_data_json (files st)))) = 23 →
  events (main st) = events st ++ evs →
  interrupted evs = false →
  flush_points 0 evs = [10; 20; 23; 23].
Proof. apply flush_points_23. Qed.

(** The sibling script 003, whose loop has no test for the last index,
    writes three times on the same run. *)
Lemma flush_cadence_003 st urls_to_scrape evs :
  auth_state_json (files st) = true →
  thread_urls_json (files st) = Some urls_to_scrape →
  length (urls_to_process urls_to_scrape (default ∅ (scraped_data_json (files st)))) = 23 →
  events (main_with save_due_003 st) = events st ++ evs →
  interrupted evs = false →
  flush_points 0 evs = [10; 20; 23].
Proof. apply flush_points_23. Qed.

End ExtractionFacts.

Section ExtractionRuns.
#[local] Existing Instance Fake.playwright.

(** C6, on a thread whose only message has no timestamp element: the
    record is returned, it holds the message, the timestamp of the message
    is the sentinel, its author and body are kept. *)
Lemma missing_timestamp_message :
  ∃ r m,
    (scrape_thread_page (Runs.topic "A")
       (Fake.start (Runs.fs_ready [] None) Runs.site_partial)).1 = Ok (Some r) ∧
    url r = Runs.topic "A" ∧ messages r = [m] ∧
    author m = "Ann" ∧ timestamp m = "N/A" ∧ body m = "hi".
Proof.
  destruct graceful_field_degradation as (Hfield & _ & Hrecord).
  edestruct (Hrecord (Runs.topic "A") (Fake.start (Runs.fs_ready [] None) Runs.site_partial))
    as (r & st' & Heq & Hurl & Hlen & Hpt); [vm_compute; reflexivity..|].
  edestruct (Hpt 0) as (m & Hm & Hread); [reflexivity..|].
  specialize (Hfield Runs.first_message Runs.st_partial). cbv zeta in Hfield.
  destruct Hfield as (m' & Hm' & (_ & _ & Ha) & (Ht & _ & _) & (_ & Hb)).
  exists r, m. rewrite Heq. split; [reflexivity|]. split; [done|]. split.
  { destruct (messages r) as [|m0 [|m1 ms]]; simpl in Hlen, Hm; [done| |done].
    by injection Hm as ->. }
  assert (m' = m) as ->.
  { assert ((scrape_message Runs.first_message Runs.st_partial).1 = Ok m) as Hread'
      by exact Hread.
    rewrite Hm' in Hread'. by injection Hread'. }
  split; [|split].
  - apply (Ha " Ann "). vm_compute. reflexivity.
  - apply (Ht TimeoutError). vm_compute. reflexivity.
  - apply (Hb " hi "). vm_compute. reflexivity.
Defined.

(** C5, witness: the navigation to thread B times out. *)
Lemma timeout_skips_thread_witness :
  ∃ st1, scrape_thread_page (Runs.topic "B") Runs.st_resume = (Ok None, st1) ∧
    scrape_loop save_due_03 0 2 [Runs.topic "B"; Runs.topic "C"]
      {[ Runs.topic "A" := Runs.record_A ]} Runs.st_resume
    = scrape_loop save_due_03 1 2 [Runs.topic "C"] {[ Runs.topic "A" := Runs.record_A ]}
        (if save_due_03 0 2
         then write_data {[ Runs.topic "A" := Runs.record_A ]} st1 else st1) ∧
    (Runs.topic "B" ∉ dom ({[ Runs.topic "A" := Runs.record_A ]} : gmap string ThreadRecord) →
     Runs.topic "B" ∉ [Runs.topic "C"] →
     Runs.topic "B" ∉ dom (scrape_loop save_due_03 0 2 [Runs.topic "B"; Runs.topic "C"]
                            {[ Runs.topic "A" := Runs.record_A ]} Runs.st_resume).1.2).
Proof.
  apply (timeout_skips_thread save_due_03 0 2 (Runs.topic "B") [Runs.topic "C"]
           {[ Runs.topic "A" := Runs.record_A ]} Runs.st_resume TimeoutError).
  left. vm_compute. reflexivity.
Defined.

(** C7, witness: a run without the session file. *)
Lemma fatal_precondition_witness :
  main Runs.st_noauth = Runs.st_noauth ∧
  navigations (events (main Runs.st_noauth)) = navigations (events Runs.st_noauth) ∧
  files (main Runs.st_noauth) = files Runs.st_noauth ∧
  (auth_state_json (files Runs.st_noauth) = false →
   ∀ fuel, main_discovery fuel Runs.st_noauth = Some Runs.st_noauth).
Proof.
  apply (fatal_precondition Runs.st_noauth). left. reflexivity.
Defined.

(** C1, witness: the resumed run over threads A, B and C. *)
Lemma resume_completeness_witness :
  let prior := default ∅ (scraped_data_json (files Runs.st_resume)) in
  let todo := filter (fun target => target ∉ dom prior)
                [Runs.topic "A"; Runs.topic "B"; Runs.topic "C"] in
  let run := thread_visits todo Runs.st_resume in
  let final := default ∅ (scraped_data_json (files (main Runs.st_resume))) in
  navigations (events (main Runs.st_resume))
  = navigations (events Runs.st_resume) ++ visited run ∧
  (∃ rest, todo = visited run ++ rest ∧ (raised run = None → rest = [])) ∧
  final = store_all (returned run) prior ∧
  (∀ k r, prior !! k = Some r → final !! k = Some r) ∧
  (∀ k r, final !! k = Some r → prior !! k = Some r ∨ (k, Some r) ∈ returned run) ∧
  (NoDup [Runs.topic "A"; Runs.topic "B"; Runs.topic "C"] →
   ∀ k o, (k, o) ∈ returned run → final !! k = o).
Proof.
  apply (resume_completeness Runs.st_resume
           [Runs.topic "A"; Runs.topic "B"; Runs.topic "C"]); reflexivity.
Defined.

(** C1, counterexample: the input list is A, B, C and A is in the mapping
    loaded at start, so that B and C are to be processed; the page of B
    closes while its messages are listed, the exception leaves the loop,
    and C is never visited and gets no record. *)
Lemma closed_page_leaves_thread_unvisited :
  thread_urls_json (files Runs.st_closing)
  = Some [Runs.topic "A"; Runs.topic "B"; Runs.topic "C"] ∧
  default ∅ (scraped_data_json (files Runs.st_closing))
  = {[ Runs.topic "A" := Runs.record_A ]} ∧
  filter (fun target => target ∉ dom (default ∅ (scraped_data_json (files Runs.st_closing))))
    [Runs.topic "A"; Runs.topic "B"; Runs.topic "C"]
  = [Runs.topic "B"; Runs.topic "C"] ∧
  navigations (events (main Runs.st_closing)) = [Runs.topic "B"] ∧
  raised (thread_visits [Runs.topic "B"; Runs.topic "C"] Runs.st_closing)
  = Some (Runs.topic "B", OtherError) ∧
  default ∅ (scraped_data_json (files (main Runs.st_closing))) !! Runs.topic "C" = None.
Proof. vm_compute. repeat split; done. Qed.

(** The calls of the resumed run: the call for B returns nothing (its page
    timed out), the call for C returns the record that the data file then
    holds. *)
Example resumed_run_visits :
  ∃ record_C,
    returned (thread_visits [Runs.topic "B"; Runs.topic "C"] Runs.st_resume)
    = [(Runs.topic "B", None); (Runs.topic "C", Some record_C)] ∧
    raised (thread_visits [Runs.topic "B"; Runs.topic "C"] Runs.st_resume) = None ∧
    default ∅ (scraped_data_json (files (main Runs.st_resume)))
    = {[ Runs.topic "A" := Runs.record_A; Runs.topic "C" := record_C ]} ∧
    title record_C = "C".
Proof. eexists. vm_compute. repeat split; reflexivity. Qed.

(** The resumed run, computed: B and C are visited in this order, A is
    not; C is added, A keeps its record, B stays absent. *)
Example resumed_run :
  navigations (events (main Runs.st_resume)) = [Runs.topic "B"; Runs.topic "C"] ∧
  flush_points 0 (events (main Runs.st_resume)) = [2; 2] ∧
  dom (default ∅ (scraped_data_json (files (main Runs.st_resume))))
  = ({[ Runs.topic "A"; Runs.topic "C" ]} : gset string) ∧
  default ∅ (scraped_data_json (files (main Runs.st_resume))) !! Runs.topic "A"
  = Some Runs.record_A.
Proof. vm_compute. done. Qed.

(** A run that an exception leaves: the page of B closes, C is not
    visited, the handler reports, and the final flush writes what was
    there. *)
Example interrupted_run :
  navigations (events (main Runs.st_closing)) = [Runs.topic "B"] ∧
  interrupted (events (main Runs.st_closing)) = true ∧
  flush_points 0 (events (main Runs.st_closing)) = [1] ∧
  scraped_data_json (files (main Runs.st_closing))
  = Some {[ Runs.topic "A" := Runs.record_A ]}.
Proof. vm_compute. done. Qed.

(** C4, witness: the run over 23 fresh URLs. *)
Lemma flush_cadence_witness :
  flush_points 0 (events (main Runs.st_23)) = [10; 20; 23; 23].
Proof.
  apply (flush_cadence Runs.st_23 Runs.urls23 (events (main Runs.st_23)));
    vm_compute; reflexivity.
Defined.

(** C4, counterexample: batch size 10, 23 URLs to extract, no interruption,
    and the data file is written four times, not three. *)
Lemma twenty_three_urls_four_flushes :
  SAVE_EVERY = 10 ∧
  length (urls_to_process Runs.urls23 ∅) = 23 ∧
  interrupted (events (main Runs.st_23)) = false ∧
  navigations (events (main Runs.st_23)) = Runs.urls23 ∧
  flush_points 0 (events (main Runs.st_23)) = [10; 20; 23; 23] ∧
  length (flush_points 0 (events (main Runs.st_23))) ≠ 3.
Proof. vm_compute. repeat split; done. Qed.

End ExtractionRuns.

(** ** Discovery *)

Section DiscoveryFacts.
Context {W : Type} `{!Playwright W}.
Implicit Types st : St W.

Lemma try_locator_total locator st :
  ∃ clicked st', try_locator locator st = (Ok clicked, st').
Proof. apply catch_ret_total. Qed.

(** One strategy answers [True] exactly when its element is visible and
    the click returns. *)
Lemma try_locator_true locator st st' :
  try_locator locator st = (Ok true, st') ↔ visible_and_clicked locator st st'.
Proof.
  unfold try_locator, visible_and_clicked, catch, bind, ret. split.
  - destruct (is_visible locator st) as [[[|]|e] s1]; [|done..].
    destruct (click locator s1) as [[[]|e] s2] eqn:Hclick; [|done].
    intros [= <-]. eauto.
  - intros (s1 & -> & ->). done.
Qed.

Lemma try_locators_spec locators st :
  ∃ b st', try_locators locators st = (Ok b, st') ∧
    (b = true →
       ∃ k locator stk,
         locators !! k = Some locator ∧ states_tried locators st !! k = Some stk ∧
         visible_and_clicked locator stk st' ∧
         ∀ j lj stj, j < k → locators !! j = Some lj →
                     states_tried locators st !! j = Some stj →
                     ¬ ∃ s, visible_and_clicked lj stj s) ∧
    (b = false →
       ∀ k locator stk,
         locators !! k = Some locator → states_tried locators st !! k = Some stk →
         ¬ ∃ s, visible_and_clicked locator stk s).
Proof.
  revert st. induction locators as [|locator rest IH]; intros st.
  - exists false, st. split; [done|]. split; [done|]. by intros _ k ???.
  - simpl. unfold bind at 1.
    destruct (try_locator_total locator st) as (clicked & s1 & Htry).
    rewrite Htry. cbn [snd]. destruct clicked.
    + exists true, s1. split; [done|]. split; [|done]. intros _.
      exists 0, locator, st. repeat split; try done.
      * by apply try_locator_true.
      * intros j ?? Hj. lia.
    + destruct (IH s1) as (b & st' & -> & Htrue & Hfalse).
      exists b, st'. split; [done|].
      assert (¬ ∃ s, visible_and_clicked locator st s) as Hno.
      { intros [s Hs%try_locator_true]. congruence. }
      split.
      * intros Hb. destruct (Htrue Hb) as (k & l & stk & Hk & Hst & Hvc & Hbefore).
        exists (S k), l, stk. repeat split; try done.
        intros [|j] lj stj Hj Hlj Hstj; simpl in *.
        -- by simplify_eq.
        -- apply (Hbefore j lj stj); [lia | done..].
      * intros Hb [|k] l stk Hk Hst; simpl in *.
        -- by simplify_eq.
        -- by apply (Hfalse Hb k l stk).
Qed.

(** C3, as amended.  [find_and_click_next_page] tries its strategies in
    priority order and never raises: whatever a probe or a click raises is
    taken as "this strategy did not match".  It returns [True] exactly when
    for some strategy the element is visible and the click on it returns;
    the first such strategy is the one that clicked.  It returns [False]
    exactly when no strategy is both visible and clicked. *)
Theorem resolver_contract st :
  ∃ b st', find_and_click_next_page st = (Ok b, st') ∧
    (b = true ↔
       ∃ k locator stk,
         locators_to_try !! k = Some locator ∧
         states_tried locators_to_try st !! k = Some stk ∧
         ∃ s, visible_and_clicked locator stk s) ∧
    (b = true →
       ∃ k locator stk,
         locators_to_try !! k = Some locator ∧
         states_tried locators_to_try st !! k = Some stk ∧
         visible_and_clicked locator stk st' ∧
         ∀ j lj stj, j < k → locators_to_try !! j = Some lj →
                     states_tried locators_to_try st !! j = Some stj →
                     ¬ ∃ s, visible_and_clicked lj stj s).
Proof.
  unfold find_and_click_next_page.
  destruct (try_locators_spec locators_to_try st) as (b & st' & Heq & Htrue & Hfalse).
  exists b, st'. split; [done|]. split; [|done]. split.
  - intros Hb. destruct (Htrue Hb) as (k & l & stk & ? & ? & ? & _). eauto 10.
  - intros (k & l & stk & Hk & Hst & Hvc). destruct b; [done|].
    by destruct (Hfalse eq_refl k l stk).
Qed.

(** In the older variant 00002 an exception of a probe that is not a
    timeout leaves the function. *)
Lemma probe_error_propagates_00002 locator rest st st1 :
  is_visible locator st = (Raise OtherError, st1) →
  try_locators_00002 (locator :: rest) st = (Raise OtherError, st1).
Proof.
  intros Hprobe. simpl. unfold bind at 1, try_locator_00002, catch, bind.
  by rewrite Hprobe.
Qed.

Lemma pagination_loop_S fuel seen page_count st :
  pagination_loop (S fuel) seen page_count st =
  match collect_page seen st with
  | (Ok seen1, st1) =>
      match find_and_click_next_page st1 with
      | (Ok true, st2) =>
          match wait_for_load_state st2 with
          | (Ok _, st3) => pagination_loop fuel seen1 (page_count + 1) st3
          | (Raise e, st3) => (Raise e, st3)
          end
      | (Ok false, st2) => (Ok (Some (seen1, page_count)), st2)
      | (Raise e, st2) => (Raise e, st2)
      end
  | (Raise e, st1) => (Raise e, st1)
  end.
Proof.
  simpl. unfold bind at 1. destruct (collect_page seen st) as [[seen1|e] st1]; [|done].
  unfold bind at 1. destruct (find_and_click_next_page st1) as [[[|]|e] st2]; [|done..].
  unfold bind at 1. by destruct (wait_for_load_state st2) as [[[]|e] st3].
Qed.


Lemma collect_hrefs_qualified links current st s st' :
  collect_hrefs links current st = (Ok s, st') →
  (∀ u, u ∈ current → scheme_qualified u) →
  ∀ u, u ∈ s → scheme_qualified u.
Proof.
  revert current st. induction links as [|link rest IH]; intros current st; simpl.
  - by intros [= <- <-].
  - unfold bind at 1. destruct (get_attribute link "href" st) as [[href|e] s1]; [|done].
    intros Hrest Hcur. apply (IH _ _ Hrest).
    destruct href as [h|]; [|done].
    destruct (Py.truthy h) eqn:Hh; [|done].
    intros u [Hu|Hu%elem_of_singleton]%elem_of_union; [by apply Hcur|].
    exists h. split; [by apply truthy_ne | done].
Qed.

Lemma collect_page_qualified seen st s st' :
  collect_page seen st = (Ok s, st') →
  (∀ u, u ∈ seen → scheme_qualified u) →
  ∀ u, u ∈ s → scheme_qualified u.
Proof.
  unfold collect_page, bind, ret.
  destruct (wait_for_timeout st) as [[[]|e] s1]; [|done].
  destruct (all (page_locator thread_link_selector) s1) as [[links|e] s2]; [|done].
  destruct (collect_hrefs links ∅ s2) as [[current|e] s3] eqn:Hcur; [|done].
  intros [= <- <-] Hseen u [Hu|Hu]%elem_of_union; [by apply Hseen|].
  apply (collect_hrefs_qualified _ _ _ _ _ Hcur); [|done].
  intros ? ?%not_elem_of_empty. done.
Qed.

Lemma pagination_loop_qualified fuel seen page_count st s n st' :
  pagination_loop fuel seen page_count st = (Ok (Some (s, n)), st') →
  (∀ u, u ∈ seen → scheme_qualified u) →
  ∀ u, u ∈ s → scheme_qualified u.
Proof.
  revert seen page_count st. induction fuel as [|fuel IH]; intros seen page_count st.
  - done.
  - rewrite pagination_loop_S.
    destruct (collect_page seen st) as [[seen1|e] s1] eqn:Hc; [|done].
    pose proof (collect_page_qualified _ _ _ _ Hc) as Hq.
    destruct (find_and_click_next_page s1) as [[[|]|e] s2]; [| |done].
    + destruct (wait_for_load_state s2) as [[[]|e] s3]; [|done].
      intros Hloop Hseen. apply (IH _ _ _ Hloop). by apply Hq.
    + intros [= <- <- <-] Hseen. by apply Hq.
Qed.

(** What [get_all_thread_urls] returns: the elements of a set of
    qualified URLs. *)
Lemma get_all_thread_urls_spec fuel st thread_urls st1 :
  get_all_thread_urls fuel st = (Ok (Some thread_urls), st1) →
  NoDup thread_urls ∧ ∀ u, u ∈ thread_urls → scheme_qualified u.
Proof.
  unfold get_all_thread_urls, bind, ret.
  destruct (goto GROUP_URL st) as [[[]|e] s1]; [|done].
  destruct (wait_for_selector thread_link_selector s1) as [[[]|e] s2]; [|done].
  destruct (pagination_loop fuel ∅ 1 s2) as [[[[seen n]|]|e] s3] eqn:Hloop; [|done..].
  intros [= <- <-]. split; [apply NoDup_elements|].
  intros u Hu%elem_of_elements.
  apply (pagination_loop_qualified _ _ _ _ _ _ _ Hloop); [|done].
  intros ? ?%not_elem_of_empty. done.
Qed.

(** C9.  When discovery returns, what [main] writes to [thread_urls.json]
    is the sorted list of the URLs found: sorted by code point, without
    duplicates, with the same members as the set, each of them the host
    [https://groups.io] followed by a non-empty [href]. *)
Theorem discovery_artifact fuel st thread_urls st1 :
  auth_state_json (files st) = true →
  get_all_thread_urls fuel st = (Ok (Some thread_urls), st1) →
  ∃ st',
    main_discovery fuel st = Some st' ∧
    thread_urls_json (files st') = Some (sorted thread_urls) ∧
    StronglySorted String.le (sorted thread_urls) ∧
    NoDup (sorted thread_urls) ∧
    (∀ u, u ∈ sorted thread_urls ↔ u ∈ thread_urls) ∧
    (∀ u, u ∈ sorted thread_urls → scheme_qualified u).
Proof.
  intros Hauth Hget. destruct (get_all_thread_urls_spec _ _ _ _ Hget) as [Hnd Hq].
  exists (write_urls (sorted thread_urls) st1).
  assert (sorted thread_urls ≡ₚ thread_urls) as Hperm
    by apply merge_sort_Permutation.
  split; [|split; [|split; [|split; [|split]]]].
  - unfold main_discovery. by rewrite Hauth, Hget.
  - done.
  - apply StronglySorted_merge_sort; apply _.
  - by rewrite Hperm.
  - intros u. by rewrite Hperm.
  - intros u Hu. apply Hq. by rewrite <- Hperm.
Qed.

End DiscoveryFacts.

Section DiscoveryRuns.
#[local] Existing Instance Fake.playwright.


(** C3, counterexample: the first strategy finds its element visible, the
    click on it times out, no other strategy matches: the function returns
    [False] although a visible match was located. *)
Lemma visible_match_without_advance :
  locators_to_try !! 0 = Some Runs.rel_next ∧
  states_tried locators_to_try Runs.st_stuck !! 0 = Some Runs.st_stuck ∧
  visible_match Runs.rel_next Runs.st_stuck ∧
  (find_and_click_next_page Runs.st_stuck).1 = Ok false.
Proof.
  split; [done|]. split; [done|]. split.
  - exists Runs.st_stuck. vm_compute. reflexivity.
  - vm_compute. reflexivity.
Qed.

(** C9, witness: the three pages give three URLs, written in order. *)
Lemma discovery_artifact_witness :
  ∃ st',
    main_discovery 5 Runs.st_three = Some st' ∧
    thread_urls_json (files st')
    = Some (sorted (elements ({[ "https://groups.io/g/44net/topic/1";
                                 "https://groups.io/g/44net/topic/2";
                                 "https://groups.io/g/44net/topic/3" ]} : gset string))) ∧
    StronglySorted String.le
      (sorted (elements ({[ "https://groups.io/g/44net/topic/1";
                            "https://groups.io/g/44net/topic/2";
                            "https://groups.io/g/44net/topic/3" ]} : gset string))) ∧
    NoDup (sorted (elements ({[ "https://groups.io/g/44net/topic/1";
                                "https://groups.io/g/44net/topic/2";
                                "https://groups.io/g/44net/topic/3" ]} : gset string))) ∧
    (∀ u, u ∈ sorted (elements ({[ "https://groups.io/g/44net/topic/1";
                                   "https://groups.io/g/44net/topic/2";
                                   "https://groups.io/g/44net/topic/3" ]} : gset string))
          ↔ u ∈ elements ({[ "https://groups.io/g/44net/topic/1";
                             "https://groups.io/g/44net/topic/2";
                             "https://groups.io/g/44net/topic/3" ]} : gset string)) ∧
    (∀ u, u ∈ sorted (elements ({[ "https://groups.io/g/44net/topic/1";
                                   "https://groups.io/g/44net/topic/2";
                                   "https://groups.io/g/44net/topic/3" ]} : gset string))
          → scheme_qualified u).
Proof.
  apply (discovery_artifact 5 Runs.st_three _
           (get_all_thread_urls 5 Runs.st_three).2).
  - reflexivity.
  - vm_compute. reflexivity.
Defined.

(** The file written by that run. *)
Example discovered_urls_file :
  (fun st' => thread_urls_json (files st')) <$> main_discovery 5 Runs.st_three
  = Some (Some [ "https://groups.io/g/44net/topic/1";
                 "https://groups.io/g/44net/topic/2";
                 "https://groups.io/g/44net/topic/3" ]).
Proof. vm_compute. reflexivity. Qed.

End DiscoveryRuns.

(** * Further properties *)

(** ** Stored strings *)

Section StoredStrings.
Import Py.

Lemma lstrip_empty_iff s : lstrip s = "" ↔ all_space s = true.
Proof.
  induction s as [|c s IH]; simpl; [done|].
  destruct (is_space c); simpl; [done|]. split; done.
Qed.

Lemma rstrip_empty_iff s : rstrip s = "" ↔ all_space s = true.
Proof.
  induction s as [|c s IH]; simpl; [done|].
  destruct (rstrip s) as [|d r] eqn:Hr.
  - destruct (is_space c); simpl; [done|]. split; done.
  - split; [done|]. intros [_ Hs]%andb_true_iff. apply IH in Hs. done.
Qed.

Lemma strip_empty_iff s : strip s = "" ↔ all_space s = true.
Proof.
  unfold strip. split.
  - intros Hr%rstrip_empty_iff. apply lstrip_empty_iff.
    pose proof (lstrip_head s) as Hh.
    destruct (lstrip s) as [|c t]; [done|]. simpl in *.
    apply andb_true_iff in Hr as [Hc _]. congruence.
  - intros Hs%lstrip_empty_iff. by rewrite Hs.
Qed.

Lemma trimmed_strip s : trimmed (strip s).
Proof. split; [apply strip_start | apply strip_end]. Qed.

Lemma trimmed_strip_or_na v : trimmed (strip_or_na v).
Proof.
  destruct v as [s|]; simpl; [|done].
  destruct (truthy s); [apply trimmed_strip | done].
Qed.

Lemma clean_body_fixed body : clean_body (clean_body body) = clean_body body.
Proof.
  unfold clean_body at 1. rewrite splitlines_clean_body.
  by rewrite clean_lines_fixed by apply clean_lines_of_body.
Qed.

(** X5.  What lines 74, 75 and 81 of 03 store for an extracted text: it
    never starts or ends with whitespace; it is ["N/A"] for a missing or
    empty text; and it is the empty string exactly for a text that is not
    empty but all whitespace, which the sentinel does not cover. *)
Theorem stored_text_edge_cases (v : option string) :
  trimmed (strip_or_na v) ∧
  (v = None ∨ v = Some "" → strip_or_na v = "N/A") ∧
  (strip_or_na v = "" ↔ ∃ s, v = Some s ∧ s ≠ "" ∧ all_space s = true).
Proof.
  split; [apply trimmed_strip_or_na|]. split.
  - by intros [-> | ->].
  - destruct v as [s|]; simpl.
    + destruct (truthy s) eqn:Ht.
      * rewrite strip_empty_iff. split.
        -- intros Hs. exists s. by rewrite <- truthy_ne.
        -- by intros (s' & [= <-] & _ & Hs).
      * split; [done|]. intros (s' & [= <-] & Hne%truthy_ne & _). congruence.
    + split; [done|]. by intros (s' & ? & _).
Qed.

End StoredStrings.

(** ** Records and runs of the extraction script *)

Section MoreExtractionFacts.
Context {W : Type} `{!Playwright W}.
Implicit Types st : St W.


Lemma scrape_message_normalised el st m st' :
  scrape_message el st = (Ok m, st') → normalised_message m.
Proof.
  unfold scrape_message, bind, try_assign, catch, ret.
  destruct (text_content (loc_locator el "u") st) as [[a|ea] s1];
    (destruct (get_attribute (loc_locator el "span[title]") "title" s1) as [[t|et] s2]);
    (destruct (inner_text (loc_locator el "div.user-content") s2) as [[b|eb] s3]);
    intros [= <- <-]; (split; [|split]); cbn [author timestamp body];
    first [ apply trimmed_strip_or_na | apply trimmed_strip
          | apply clean_body_fixed | reflexivity ].
Qed.

Lemma scrape_messages_normalised els acc st ms st' :
  scrape_messages els acc st = (Ok ms, st') →
  Forall normalised_message acc → Forall normalised_message ms.
Proof.
  revert acc st. induction els as [|el els IH]; intros acc st; simpl.
  - by intros [= <- <-].
  - unfold bind at 1. destruct (scrape_message el st) as [[m|e] s1] eqn:Hm; [|done].
    intros Hrest Hacc. apply (IH _ _ Hrest). apply Forall_app. split; [done|].
    constructor; [|constructor]. by apply (scrape_message_normalised _ _ _ _ Hm).
Qed.

(** X4.  A record returned by [scrape_thread_page] is normalised: it
    carries the URL it was asked for, its title and the author and timestamp
    of every message neither start nor end with whitespace, and every body
    is a fixed point of the body clean-up. *)
Theorem scraped_record_normalised target st r st' :
  scrape_thread_page target st = (Ok (Some r), st') →
  normalised_record target r.
Proof.
  rewrite scrape_thread_page_eq.
  destruct (open_thread target st) as [[[|]|e] st1]; [|done..].
  destruct (all _ _) as [[els|e] st3]; [|done].
  destruct (scrape_messages els [] st3) as [[ms|e] st4] eqn:Hms; [|done].
  cbn [fst snd]. intros [= <- <-]. split; [done|]. split; cbn [title messages].
  - match goal with |- trimmed (if Py.truthy ?s then _ else _) =>
      apply (trimmed_strip_or_na (Some s)) end.
  - by apply (scrape_messages_normalised _ _ _ _ _ Hms).
Qed.

(** X6.  Whatever the page answers, and whether it returns a record, [None]
    or raises, [scrape_thread_page] navigates exactly once, to the URL it
    was given, and leaves the three files as they are. *)
Theorem thread_visit_frame target st :
  files (scrape_thread_page target st).2 = files st ∧
  events (scrape_thread_page target st).2 = events st ++ [EvGoto target] ∧
  navigations (events (scrape_thread_page target st).2)
  = navigations (events st) ++ [target].
Proof.
  destruct (scrape_thread_page_events target st) as [Hf He].
  split; [done|]. split; [done|]. by rewrite He, navigations_app.
Qed.

Lemma scrape_loop_inputs save_due total_urls urls i data st :
  auth_state_json (files (scrape_loop save_due i total_urls urls data st).2)
  = auth_state_json (files st) ∧
  thread_urls_json (files (scrape_loop save_due i total_urls urls data st).2)
  = thread_urls_json (files st).
Proof.
  revert i data st. induction urls as [|target rest IH]; intros i data st; [done|].
  simpl. destruct (scrape_thread_page_events target st) as [Hf _].
  destruct (scrape_thread_page target st) as [[thread_data|e] st1]; cbn [fst snd] in *.
  - match goal with |- context [scrape_loop _ _ _ _ ?d ?s] =>
      destruct (IH (S i) d s) as [-> ->] end.
    destruct (save_due i total_urls); cbn; by rewrite Hf.
  - by rewrite Hf.
Qed.

Lemma main_with_inputs save_due st :
  auth_state_json (files (main_with save_due st)) = auth_state_json (files st) ∧
  thread_urls_json (files (main_with save_due st)) = thread_urls_json (files st).
Proof.
  unfold main_with. destruct (auth_state_json (files st)) eqn:Hauth; [|done].
  simpl. destruct (thread_urls_json (files st)) as [urls|] eqn:Hurls; [|done].
  case_bool_decide; [done|].
  match goal with |- context [scrape_loop ?sd ?i ?t ?u ?d ?s] =>
    destruct (scrape_loop_inputs sd t u i d s) as [Ha Hu];
    destruct (scrape_loop sd i t u d s) as [[r data1] st1] end.
  cbn [fst snd] in *. destruct r; cbn; by rewrite Ha, Hu, ?Hauth, ?Hurls.
Qed.

Lemma urls_to_process_nil urls data :
  urls_to_process urls data = [] ↔ ∀ u, u ∈ urls → u ∈ dom data.
Proof.
  unfold urls_to_process. split.
  - intros Hnil u Hu. destruct (decide (u ∈ dom data)) as [|Hn]; [done|].
    assert (u ∈ filter (λ target, target ∉ dom data) urls) as Hin
      by (by apply list_elem_of_filter).
    rewrite Hnil in Hin. by apply elem_of_nil in Hin.
  - intros Hall. induction urls as [|u urls IH]; [done|].
    rewrite filter_cons. destruct (decide (u ∉ dom data)) as [Hn|_].
    + destruct Hn. apply Hall. by left.
    + apply IH. intros ??. apply Hall. by right.
Qed.

Lemma main_with_nothing_to_do save_due st urls :
  thread_urls_json (files st) = Some urls →
  (∀ u, u ∈ urls → u ∈ dom (default ∅ (scraped_data_json (files st)))) →
  main_with save_due st = st.
Proof.
  intros Hurls Hall%urls_to_process_nil. unfold main_with.
  destruct (auth_state_json (files st)); [|done]. simpl.
  by rewrite Hurls, Hall.
Qed.

(** X1.  When every URL of the input list is already a key of the data
    file (an empty input list included), [main] of 03 does nothing: no
    navigation, no write, the state is the one it started in. *)
Theorem nothing_left_to_scrape st urls_to_scrape :
  thread_urls_json (files st) = Some urls_to_scrape →
  (∀ u, u ∈ urls_to_scrape → u ∈ dom (default ∅ (scraped_data_json (files st)))) →
  main st = st.
Proof. apply main_with_nothing_to_do. Qed.

(** X7.  Two runs in a row: when the first run of [main] has left a record
    for every URL of the input list, a second run does nothing at all. *)
Theorem second_run_does_nothing st urls_to_scrape :
  thread_urls_json (files st) = Some urls_to_scrape →
  (∀ u, u ∈ urls_to_scrape →
        u ∈ dom (default ∅ (scraped_data_json (files (main st))))) →
  main (main st) = main st.
Proof.
  intros Hurls Hall. unfold main in *.
  apply (main_with_nothing_to_do _ _ urls_to_scrape); [|done].
  destruct (main_with_inputs save_due_03 st) as [_ Hu]. by rewrite Hu.
Qed.

(** X2.  Once there is work to do, [main] of 03 ends with a write of the
    data file, also when an exception has left the loop: the file then
    exists, holds every record loaded at start, and the two input files are
    as they were. *)
Theorem final_flush_always st urls_to_scrape :
  auth_state_json (files st) = true →
  thread_urls_json (files st) = Some urls_to_scrape →
  urls_to_process urls_to_scrape (default ∅ (scraped_data_json (files st))) ≠ [] →
  ∃ evs final,
    events (main st) = events st ++ evs ++ [EvWrite DATA_FILE] ∧
    scraped_data_json (files (main st)) = Some final ∧
    default ∅ (scraped_data_json (files st)) ⊆ final ∧
    auth_state_json (files (main st)) = true ∧
    thread_urls_json (files (main st)) = Some urls_to_scrape.
Proof.
  intros Hauth Hurls Htodo.
  destruct (main_with_inputs save_due_03 st) as [Ha Hu]. fold (main st) in Ha, Hu.
  rewrite Ha, Hu, Hauth, Hurls.
  unfold main, main_with. rewrite Hauth, Hurls. simpl.
  set (prior := default ∅ (scraped_data_json (files st))) in *.
  set (todo := urls_to_process urls_to_scrape prior) in *.
  rewrite bool_decide_eq_false_2 by done.
  destruct (scrape_loop_spec save_due_03 (length todo) todo 0 prior st)
    as (new & evs & Hdata & Hdom & _ & Hev & [rest Hpre] & _).
  destruct (scrape_loop save_due_03 0 (length todo) todo prior st) as [[r data1] st1].
  cbn [fst snd] in *. subst data1.
  assert (prior ⊆ new ∪ prior) as Hsub.
  { apply map_union_subseteq_r, map_disjoint_dom. intros k Hnew Hprior.
    apply Hdom, elem_of_list_to_set in Hnew.
    assert (k ∈ todo) as Hk by (rewrite Hpre; apply elem_of_app; by left).
    unfold todo, urls_to_process in Hk.
    apply list_elem_of_filter in Hk as [Hk _]. done. }
  destruct r as [[]|e].
  - exists evs, (new ∪ prior). rewrite write_data_events, Hev, <- app_assoc. done.
  - exists (evs ++ [EvError e]), (new ∪ prior).
    rewrite write_data_events. cbn [events log]. rewrite Hev, <- !app_assoc. done.
Qed.

Lemma filter_seq_ext (P Q : nat → Prop) `{!∀ p, Decision (P p)} `{!∀ p, Decision (Q p)}
    (l : list nat) :
  (∀ p, p ∈ l → P p ↔ Q p) → filter P l = filter Q l.
Proof.
  induction l as [|p l IH]; intros Hext; [done|].
  rewrite !filter_cons, IH by (intros ??; apply Hext; by right).
  destruct (decide (P p)) as [HP|HP], (decide (Q p)) as [HQ|HQ]; try done;
    exfalso; apply (Hext p) in HP || apply HP, (Hext p); try done; by left.
Qed.

Lemma loop_flushes_filter save_due total_urls m i :
  loop_flushes save_due i total_urls m i
  = filter (λ p, save_due (p - 1) total_urls = true) (seq (S i) m).
Proof.
  revert i. induction m as [|m IH]; intros i; [done|].
  cbn [loop_flushes seq]. rewrite filter_cons, IH.
  replace (S i - 1) with i by lia.
  destruct (save_due i total_urls); by destruct (decide _).
Qed.

(** X3.  Where [main] of 03 writes the data file in a run over [n > 0]
    URLs that no exception interrupts: inside the loop after the URLs whose
    count is a multiple of [SAVE_EVERY] and after the last one, in
    increasing order, and once more when the loop is over. *)
Theorem flush_points_closed_form st urls_to_scrape evs :
  auth_state_json (files st) = true →
  thread_urls_json (files st) = Some urls_to_scrape →
  urls_to_process urls_to_scrape (default ∅ (scraped_data_json (files st))) ≠ [] →
  events (main st) = events st ++ evs →
  interrupted evs = false →
  let n := length (urls_to_process urls_to_scrape
                     (default ∅ (scraped_data_json (files st)))) in
  flush_points 0 evs
  = filter (λ p, p mod SAVE_EVERY = 0 ∨ p = n) (seq 1 n) ++ [n].
Proof.
  intros Hauth Hurls Htodo Hev Hint n.
  destruct (main_with_spec save_due_03 st urls_to_scrape Hauth Hurls)
    as (evs' & new & Hev' & _ & _ & _ & _ & Hok).
  fold (main st) in Hev'. rewrite Hev in Hev'. apply app_inv_head in Hev' as <-.
  destruct (Hok Hint) as [_ Hfl]. rewrite (Hfl Htodo). fold n. f_equal.
  rewrite loop_flushes_filter. apply filter_seq_ext.
  intros p [Hp1 Hp2]%elem_of_seq. unfold save_due_03.
  replace (p - 1 + 1) with p by lia.
  rewrite orb_true_iff, !Nat.eqb_eq. split; intros [?|?]; auto; right; lia.
Qed.

End MoreExtractionFacts.

Section TitleRuns.
#[local] Existing Instance Fake.playwright.



(** The title field on the edges: a document title of one blank gives the
    empty string, an empty text after the delimiter gives the sentinel, and
    a title without delimiter is trimmed. *)
Example record_title_edges :
  record_title " " = "" ∧ record_title "a | " = "N/A" ∧ record_title "" = "N/A" ∧
  record_title " Topic " = "Topic".
Proof. vm_compute. done. Qed.

End TitleRuns.

Section MoreExtractionRuns.
#[local] Existing Instance Fake.playwright.

(** X1, witness: the only input URL has its record already. *)
Lemma nothing_left_to_scrape_witness : main MoreRuns.st_done = MoreRuns.st_done.
Proof.
  apply (nothing_left_to_scrape MoreRuns.st_done [Runs.topic "A"]); [reflexivity|].
  intros u Hu. apply elem_of_dom.
  repeat (apply elem_of_cons in Hu as [->|Hu]); [..|by apply elem_of_nil in Hu];
    eexists; vm_compute; reflexivity.
Defined.

(** X7, witness: three fresh URLs, all scraped by the first run. *)
Lemma second_run_does_nothing_witness :
  main (main MoreRuns.st_3) = main MoreRuns.st_3.
Proof.
  apply (second_run_does_nothing MoreRuns.st_3 MoreRuns.urls3); [reflexivity|].
  intros u Hu. apply elem_of_dom.
  repeat (apply elem_of_cons in Hu as [->|Hu]); [..|by apply elem_of_nil in Hu];
    eexists; vm_compute; reflexivity.
Defined.

(** X4, witness: the thread whose message has no timestamp. *)
Lemma scraped_record_normalised_witness :
  normalised_record (Runs.topic "A")
    {| url := Runs.topic "A"; title := "t";
       messages := [ {| author := "Ann"; timestamp := "N/A"; body := "hi" |} ] |}.
Proof.
  apply (scraped_record_normalised (Runs.topic "A")
           (Fake.start (Runs.fs_ready [] None) Runs.site_partial) _
           (scrape_thread_page (Runs.topic "A")
              (Fake.start (Runs.fs_ready [] None) Runs.site_partial)).2).
  vm_compute. reflexivity.
Defined.

(** X2, witness: the run that the closing page of thread B interrupts. *)
Lemma final_flush_always_witness :
  ∃ evs final,
    events (main Runs.st_closing) = events Runs.st_closing ++ evs ++ [EvWrite DATA_FILE] ∧
    scraped_data_json (files (main Runs.st_closing)) = Some final ∧
    default ∅ (scraped_data_json (files Runs.st_closing)) ⊆ final ∧
    auth_state_json (files (main Runs.st_closing)) = true ∧
    thread_urls_json (files (main Runs.st_closing))
    = Some [Runs.topic "A"; Runs.topic "B"; Runs.topic "C"].
Proof.
  apply (final_flush_always Runs.st_closing
           [Runs.topic "A"; Runs.topic "B"; Runs.topic "C"]);
    [reflexivity | reflexivity | vm_compute; discriminate].
Defined.

(** X3, witness: three URLs give the flush points 3 and 3. *)
Lemma flush_points_closed_form_witness :
  flush_points 0 (events (main MoreRuns.st_3)) = [3; 3].
Proof.
  apply (flush_points_closed_form MoreRuns.st_3 MoreRuns.urls3
           (events (main MoreRuns.st_3)));
    [reflexivity | reflexivity | vm_compute; discriminate
    | vm_compute; reflexivity | vm_compute; reflexivity].
Defined.

End MoreExtractionRuns.

(** ** Effects and results of discovery (000002) *)

Section MoreDiscoveryFacts.
Context {W : Type} `{!Playwright W}.
Implicit Types st : St W.

Lemma quiet_raise {A} e : quiet (W:=W) (raise (A:=A) e).
Proof. done. Qed.

Lemma quiet_collect_hrefs links current : quiet (W:=W) (collect_hrefs links current).
Proof.
  revert current. induction links as [|link rest IH]; intros current; simpl.
  - apply quiet_ret.
  - apply quiet_bind; [apply quiet_lift | intros; apply IH].
Qed.

Lemma quiet_collect_page_of selector seen : quiet (W:=W) (collect_page_of selector seen).
Proof.
  unfold collect_page_of.
  apply quiet_bind; [apply quiet_lift | intros _].
  apply quiet_bind; [apply quiet_lift | intros links].
  apply quiet_bind; [apply quiet_collect_hrefs | intros; apply quiet_ret].
Qed.

Lemma quiet_try_body locator :
  quiet (W:=W) (bind (is_visible locator)
                  (fun visible => if visible
                                  then bind (click locator) (fun _ => ret true)
                                  else ret false)).
Proof.
  apply quiet_bind; [apply quiet_lift | intros [|]; [|apply quiet_ret]].
  apply quiet_bind; [apply quiet_lift | intros; apply quiet_ret].
Qed.

Lemma quiet_try_locators locators : quiet (W:=W) (try_locators locators).
Proof.
  induction locators as [|l rest IH]; simpl; [apply quiet_ret|].
  apply quiet_bind; [|intros [|]; [apply quiet_ret | apply IH]].
  apply quiet_catch; [apply quiet_try_body | intros; apply quiet_ret].
Qed.

Lemma quiet_try_locators_00002 locators : quiet (W:=W) (try_locators_00002 locators).
Proof.
  induction locators as [|l rest IH]; simpl; [apply quiet_ret|].
  apply quiet_bind; [|intros [|]; [apply quiet_ret | apply IH]].
  apply quiet_catch; [apply quiet_try_body|].
  intros [|]; [apply quiet_ret | apply quiet_raise].
Qed.

Lemma quiet_pagination_loop_of selector advance fuel seen page_count :
  quiet advance →
  quiet (W:=W) (pagination_loop_of selector advance fuel seen page_count).
Proof.
  intros Hadv. revert seen page_count.
  induction fuel as [|fuel IH]; intros seen page_count; simpl; [apply quiet_ret|].
  apply quiet_bind; [apply quiet_collect_page_of | intros seen1].
  apply quiet_bind; [done | intros [|]; [|apply quiet_ret]].
  apply quiet_bind; [apply quiet_lift | intros; apply IH].
Qed.

(** The loop of 000002 is the generic loop at its selector and resolver. *)
Lemma pagination_loop_of_eq fuel seen page_count st :
  pagination_loop_of thread_link_selector find_and_click_next_page fuel seen page_count st
  = pagination_loop fuel seen page_count st.
Proof.
  revert seen page_count st. induction fuel as [|fuel IH]; intros seen page_count st;
    [done|].
  simpl. unfold bind. change (collect_page_of thread_link_selector seen st)
    with (collect_page seen st).
  destruct (collect_page seen st) as [[seen1|e] s1]; [|done].
  destruct (find_and_click_next_page s1) as [[[|]|e] s2]; [|done..].
  destruct (wait_for_load_state s2) as [[[]|e] s3]; [|done]. apply IH.
Qed.

(** A navigation followed by steps that neither navigate nor write. *)
Lemma goto_then_quiet {A} target (k : M W A) st :
  quiet k →
  files (bind (goto target) (fun _ => k) st).2 = files st ∧
  events (bind (goto target) (fun _ => k) st).2 = events st ++ [EvGoto target].
Proof.
  intros Hk. unfold bind, goto, lift, log. simpl.
  destruct (pw_goto target (browser st)) as [[[]|e] w1]; simpl; [|done].
  match goal with |- context [k ?s] => destruct (Hk s) as [-> ->] end. done.
Qed.

Lemma get_all_thread_urls_events fuel st :
  files (get_all_thread_urls fuel st).2 = files st ∧
  events (get_all_thread_urls fuel st).2 = events st ++ [EvGoto GROUP_URL].
Proof.
  apply goto_then_quiet.
  apply quiet_bind; [apply quiet_lift | intros _].
  apply quiet_bind; [|intros; apply quiet_ret].
  intros s. rewrite <- pagination_loop_of_eq.
  apply quiet_pagination_loop_of, quiet_try_locators.
Qed.

(** X8.  What [main] of 000002 does to the outside once the session file
    is there: it navigates exactly once, to the topic list (all other pages
    are reached by clicks); when discovery raises, be it the wait for the
    first link that times out, the error is reported and no file is
    touched; when discovery returns, the only change is that
    [thread_urls.json] holds the sorted URLs. *)
Theorem discovery_effects fuel st st' :
  auth_state_json (files st) = true →
  main_discovery fuel st = Some st' →
  auth_state_json (files st') = true ∧
  scraped_data_json (files st') = scraped_data_json (files st) ∧
  ((∃ e, (get_all_thread_urls fuel st).1 = Raise e ∧
         events st' = events st ++ [EvGoto GROUP_URL; EvError e] ∧
         files st' = files st) ∨
   (∃ thread_urls, (get_all_thread_urls fuel st).1 = Ok (Some thread_urls) ∧
         events st' = events st ++ [EvGoto GROUP_URL; EvWrite URLS_FILE] ∧
         thread_urls_json (files st') = Some (sorted thread_urls))).
Proof.
  intros Hauth. unfold main_discovery. rewrite Hauth. simpl.
  destruct (get_all_thread_urls_events fuel st) as [Hf He].
  destruct (get_all_thread_urls fuel st) as [[[urls|]|e] st1]; cbn [fst snd] in *;
    [| done |]; intros [= <-].
  - cbn. rewrite Hf, He, <- app_assoc. repeat split; try done. right. eauto.
  - cbn. rewrite Hf, He, <- app_assoc. repeat split; try done. left. eauto.
Qed.

Lemma collect_hrefs_as_union links current st :
  collect_hrefs links current st =
  match read_hrefs links st with
  | (Ok hrefs, st') => (Ok (current ∪ urls_of_hrefs hrefs), st')
  | (Raise e, st') => (Raise e, st')
  end.
Proof.
  revert current st. induction links as [|link rest IH]; intros current st; simpl.
  - unfold ret. by rewrite (right_id_L ∅ (∪)).
  - unfold bind. destruct (get_attribute link "href" st) as [[href|e] s1]; [|done].
    rewrite IH. destruct (read_hrefs rest s1) as [[hrefs|e] s2]; [|done].
    f_equal. f_equal. destruct href as [h|]; [|done]. simpl.
    destruct (Py.truthy h); [|done]. by rewrite (assoc_L (∪)).
Qed.

Lemma collect_hrefs_grows links current st s st' :
  collect_hrefs links current st = (Ok s, st') → current ⊆ s.
Proof.
  rewrite collect_hrefs_as_union.
  destruct (read_hrefs links st) as [[hrefs|e] s1]; [|done].
  intros [= <- _]. apply union_subseteq_l.
Qed.

(** X11.  The URLs that the links of a page contribute: the host followed
    by the [href], for the links whose [href] is there and not empty, read
    in order; a read that raises ends the collection with that
    exception. *)
Theorem collect_hrefs_exact links current st :
  collect_hrefs links current st =
  match read_hrefs links st with
  | (Ok hrefs, st') => (Ok (current ∪ urls_of_hrefs hrefs), st')
  | (Raise e, st') => (Raise e, st')
  end.
Proof. apply collect_hrefs_as_union. Qed.

Lemma collect_page_of_grows selector seen st s st' :
  collect_page_of selector seen st = (Ok s, st') → seen ⊆ s.
Proof.
  unfold collect_page_of, bind, ret.
  destruct (wait_for_timeout st) as [[[]|e] s1]; [|done].
  destruct (all (page_locator selector) s1) as [[links|e] s2]; [|done].
  destruct (collect_hrefs links ∅ s2) as [[current|e] s3]; [|done].
  intros [= <- _]. apply union_subseteq_l.
Qed.

Lemma advances_grows K seen st seenK stK :
  advances K seen st seenK stK → seen ⊆ seenK.
Proof.
  induction 1 as [|K seen st seen1 s1 s2 s3 seenK stK Hc _ _ _ IH]; [done|].
  etrans; [|apply IH]. by apply (collect_page_of_grows thread_link_selector _ _ _ _ Hc).
Qed.

(** X9.  The set of URLs only grows while pages are turned.  When the
    pagination loop returns, it has made some number [K] of page
    transitions, fewer than the fuel: the page count it returns is the one
    it started from plus [K], the set it returns contains the set held
    after the [K] transitions, and every run of page transitions from the
    start state has at most [K] of them and holds, at its end, a set
    between the start set and that one. *)
Theorem urls_accumulate fuel seen page_count st s n st' :
  pagination_loop fuel seen page_count st = (Ok (Some (s, n)), st') →
  ∃ K seenK stK,
    advances K seen st seenK stK ∧
    n = page_count + K ∧ K < fuel ∧
    seenK ⊆ s ∧
    ∀ J seenJ stJ, advances J seen st seenJ stJ →
      J ≤ K ∧ seen ⊆ seenJ ∧ seenJ ⊆ seenK.
Proof.
  revert seen page_count st. induction fuel as [|fuel IH]; intros seen page_count st;
    [done|].
  rewrite pagination_loop_S.
  destruct (collect_page seen st) as [[seen1|e] s1] eqn:Hc; [|done].
  pose proof (collect_page_of_grows thread_link_selector _ _ _ _ Hc) as Hsub.
  destruct (find_and_click_next_page s1) as [[[|]|e] s2] eqn:Hf; [| |done].
  - destruct (wait_for_load_state s2) as [[[]|e] s3] eqn:Hw; [|done].
    intros (K & seenK & stK & Hadv & -> & HK & Hs & Hall)%IH.
    exists (S K), seenK, stK. split; [by eapply advances_S|].
    split; [lia|]. split; [lia|]. split; [done|].
    intros J seenJ stJ Hstep.
    inversion Hstep as [|J' ? ? ? ? ? ? ? ? Hc' Hf' Hw' Hrest]; subst.
    + split; [lia|]. split; [done|]. etrans; [done|]. by apply (advances_grows _ _ _ _ _ Hadv).
    + rewrite Hc in Hc'. injection Hc' as <- <-.
      rewrite Hf in Hf'. injection Hf' as <-.
      rewrite Hw in Hw'. injection Hw' as <-.
      destruct (Hall _ _ _ Hrest) as (HJ & Hlow & Hup).
      split; [lia|]. split; [by etrans | done].
  - intros [= <- <- <-]. exists 0, seen, st. split; [constructor|].
    split; [lia|]. split; [lia|]. split; [done|].
    intros J seenJ stJ Hstep.
    inversion Hstep as [|J' ? ? ? ? ? ? ? ? Hc' Hf' Hw' Hrest]; subst; [done|].
    rewrite Hc in Hc'. injection Hc' as <- <-. rewrite Hf in Hf'. done.
Qed.

(** X10.  The file of URLs does not depend on the order in which the set
    hands out its elements: lists with the same elements sort to the same
    list, and sorting a sorted list changes nothing. *)
Theorem sorted_order_independent (l1 l2 : list string) :
  l1 ≡ₚ l2 → sorted l1 = sorted l2 ∧ sorted (sorted l1) = sorted l1.
Proof.
  intros Hperm.
  assert (∀ l l', l ≡ₚ l' → sorted l = sorted l') as Huniq.
  { intros l l' Hll'. apply (Sorted_unique String.le).
    - apply Sorted_merge_sort; apply _.
    - apply Sorted_merge_sort; apply _.
    - unfold sorted. by rewrite !merge_sort_Permutation. }
  split; [by apply Huniq|]. apply Huniq. unfold sorted. apply merge_sort_Permutation.
Qed.

End MoreDiscoveryFacts.

(** ** The older resolver (00002) and the page-number crawl (02) *)

Section VariantFacts.
Context {W : Type} `{!Playwright W}.
Implicit Types st : St W.

Lemma try_locator_00002_agrees locator st clicked st' :
  try_locator_00002 locator st = (Ok clicked, st') →
  try_locator locator st = (Ok clicked, st').
Proof.
  unfold try_locator_00002, try_locator, catch, bind, ret, raise.
  destruct (is_visible locator st) as [[[|]|[|]] s1]; try done.
  destruct (click locator s1) as [[[]|[|]] s2]; done.
Qed.

Lemma try_locator_00002_raises locator st e st' :
  try_locator_00002 locator st = (Raise e, st') → e = OtherError.
Proof.
  unfold try_locator_00002, catch, bind, ret, raise.
  destruct (is_visible locator st) as [[[|]|[|]] s1]; try done.
  - destruct (click locator s1) as [[[]|[|]] s2]; try done. by intros [= <- _].
  - by intros [= <- _].
Qed.

Lemma try_locators_00002_spec locators st :
  (∀ e st', try_locators_00002 locators st = (Raise e, st') → e = OtherError) ∧
  (∀ b st', try_locators_00002 locators st = (Ok b, st') →
            try_locators locators st = (Ok b, st')).
Proof.
  revert st. induction locators as [|locator rest IH]; intros st; simpl.
  - unfold ret. by split.
  - unfold bind.
    destruct (try_locator_00002 locator st) as [[clicked|e0] s1] eqn:Htry.
    + rewrite (try_locator_00002_agrees _ _ _ _ Htry).
      destruct clicked; [unfold ret; by split | apply IH].
    + split; [|done]. intros e st' [= <- _].
      by apply (try_locator_00002_raises _ _ _ _ Htry).
Qed.

(** X12.  The resolver of 00002 absorbs timeouts only: an exception that
    leaves it is never a [TimeoutError]; and whenever it returns, the
    resolver loop of 000002 run over the same strategies returns the same
    answer in the same state. *)
Theorem resolver_00002_contract st :
  (∀ e st', find_and_click_next_page_00002 st = (Raise e, st') → e = OtherError) ∧
  (∀ b st', find_and_click_next_page_00002 st = (Ok b, st') →
            try_locators locators_to_try_00002 st = (Ok b, st')).
Proof. apply try_locators_00002_spec. Qed.

(** X13.  In 00002 a probe that raises an error other than a timeout ends
    discovery: when this happens to the first strategy on the first page,
    [main] reports the error and writes nothing, whatever links the page
    held. *)
Theorem discovery_00002_aborts_on_probe_error fuel st s1 s2 seen s3 s4 locator rest :
  auth_state_json (files st) = true →
  locators_to_try_00002 = locator :: rest →
  goto GROUP_URL st = (Ok tt, s1) →
  wait_for_selector thread_link_selector_00002 s1 = (Ok tt, s2) →
  collect_page_of thread_link_selector_00002 ∅ s2 = (Ok seen, s3) →
  is_visible locator s3 = (Raise OtherError, s4) →
  main_discovery_00002 (S fuel) st = Some (log (EvError OtherError) s4) ∧
  files (log (EvError OtherError) s4) = files st ∧
  events (log (EvError OtherError) s4)
  = events st ++ [EvGoto GROUP_URL; EvError OtherError].
Proof.
  intros Hauth Hloc Hgoto Hwait Hcollect Hprobe.
  assert (get_all_thread_urls_00002 (S fuel) st = (Raise OtherError, s4)) as Hget.
  { unfold get_all_thread_urls_00002. unfold bind at 1. rewrite Hgoto.
    unfold bind at 1. rewrite Hwait. unfold bind at 1. simpl.
    unfold bind at 1. rewrite Hcollect. unfold bind at 1.
    unfold find_and_click_next_page_00002. rewrite Hloc.
    by rewrite (probe_error_propagates_00002 _ _ _ _ Hprobe). }
  assert (files (get_all_thread_urls_00002 (S fuel) st).2 = files st ∧
          events (get_all_thread_urls_00002 (S fuel) st).2
          = events st ++ [EvGoto GROUP_URL]) as [Hf He].
  { apply goto_then_quiet.
    apply quiet_bind; [apply quiet_lift | intros _].
    apply quiet_bind; [|intros; apply quiet_ret].
    apply quiet_pagination_loop_of, quiet_try_locators_00002. }
  rewrite Hget in Hf, He. cbn [snd] in Hf, He.
  split; [|split].
  - unfold main_discovery_00002. by rewrite Hauth, Hget.
  - done.
  - cbn. by rewrite He, <- app_assoc.
Qed.

Lemma open_page_events page_num st :
  files (open_page page_num st).2 = files st ∧
  events (open_page page_num st).2 = events st ++ [EvGoto (page_url page_num)].
Proof.
  unfold open_page, catch_timeout, catch, bind, goto, wait_for_selector, lift, ret,
    raise, log.
  simpl. destruct (pw_goto _ (browser st)) as [[[]|[|]] w1]; simpl; try done.
  destruct (pw_wait_for_selector _ w1) as [[[]|[|]] w2]; done.
Qed.

Lemma loop_pages_cons page_num rest seen st :
  loop_pages (page_num :: rest) seen st =
  match open_page page_num st with
  | (Ok true, s1) =>
      match all (page_locator thread_link_selector) s1 with
      | (Ok [], s2) => (Ok seen, s2)
      | (Ok (link :: links), s2) =>
          match collect_hrefs (link :: links) seen s2 with
          | (Ok seen1, s3) => loop_pages rest seen1 s3
          | (Raise e, s3) => (Raise e, s3)
          end
      | (Raise e, s2) => (Raise e, s2)
      end
  | (Ok false, s1) => (Ok seen, s1)
  | (Raise e, s1) => (Raise e, s1)
  end.
Proof.
  cbn [loop_pages]. unfold bind at 1.
  destruct (open_page page_num st) as [[[|]|e] s1]; [|done..].
  unfold bind at 1.
  destruct (all (page_locator thread_link_selector) s1) as [[[|link links]|e] s2];
    [done| |done].
  unfold bind at 1. by destruct (collect_hrefs (link :: links) seen s2) as [[?|?] ?].
Qed.

(** What the crawl of 02 does to the outside: it requests a prefix of its
    pages, in order, and touches no file. *)
Lemma loop_pages_events page_nums seen st :
  ∃ visited,
    visited `prefix_of` page_nums ∧
    files (loop_pages page_nums seen st).2 = files st ∧
    events (loop_pages page_nums seen st).2
    = events st ++ ((fun n => EvGoto (page_url n)) <$> visited).
Proof.
  revert seen st. induction page_nums as [|page_num rest IH]; intros seen st.
  - exists []. simpl. by rewrite app_nil_r.
  - rewrite loop_pages_cons.
    destruct (open_page_events page_num st) as [Hf He].
    assert ([page_num] `prefix_of` page_num :: rest) as Hone
      by apply prefix_cons, prefix_nil.
    destruct (open_page page_num st) as [[[|]|e] s1]; cbn [fst snd] in *;
      [|by exists [page_num]..].
    destruct (quiet_lift (pw_all (page_locator thread_link_selector)) s1) as [Hf1 He1].
    change (lift (pw_all ?l)) with (all (W:=W) l) in Hf1, He1.
    destruct (all (page_locator thread_link_selector) s1) as [[[|link links]|e] s2];
      cbn [fst snd] in *;
      [exists [page_num]; split; [done|]; split; simpl; congruence
      | | exists [page_num]; split; [done|]; split; simpl; congruence].
    destruct (quiet_collect_hrefs (link :: links) seen s2) as [Hf2 He2].
    destruct (collect_hrefs (link :: links) seen s2) as [[seen1|e] s3];
      cbn [fst snd] in *;
      [|exists [page_num]; split; [done|]; split; simpl; congruence].
    destruct (IH seen1 s3) as (visited & Hpre & Hf3 & He3).
    exists (page_num :: visited). split; [by apply prefix_cons|].
    split; [congruence|]. rewrite He3, He2, He1, He.
    rewrite <- app_assoc. done.
Qed.

Lemma prefix_of_seq (l : list nat) a n :
  l `prefix_of` seq a n → l = seq a (length l) ∧ length l ≤ n.
Proof.
  intros [k Hk]. assert (length l ≤ n) as Hlen.
  { apply (f_equal length) in Hk. rewrite length_seq, length_app in Hk. lia. }
  split; [|done].
  assert (l = take (length l) (seq a n)) as Hl.
  { rewrite Hk. by rewrite take_app_length. }
  rewrite Hl at 1. rewrite take_seq. f_equal. lia.
Qed.

(** X14.  The crawl of 02 is bounded and orderly: whatever the site
    answers, and whether it returns or raises, it requests the pages
    [?page=1], [?page=2], ... up to some page number [k ≤ 9], each once and
    in this order, and touches no file. *)
Theorem page_crawl_bounded st :
  ∃ k, k ≤ 9 ∧
    navigations (events (get_all_thread_urls_by_looping st).2)
    = navigations (events st) ++ (page_url <$> seq 1 k) ∧
    files (get_all_thread_urls_by_looping st).2 = files st.
Proof.
  unfold get_all_thread_urls_by_looping, bind, ret.
  destruct (loop_pages_events PAGE_RANGE ∅ st) as (visited & Hpre & Hf & He).
  apply prefix_of_seq in Hpre as [Hv Hlen].
  exists (length visited). split; [done|].
  assert (navigations ((fun n => EvGoto (page_url n)) <$> visited)
          = page_url <$> visited) as Hnav.
  { clear. induction visited as [|n l IH]; csimpl; by rewrite ?IH. }
  destruct (loop_pages PAGE_RANGE ∅ st) as [[seen|e] s1]; cbn [fst snd] in *;
    rewrite He, navigations_app, Hnav, Hf; by rewrite <- Hv.
Qed.

Lemma open_page_unavailable page_num st :
  page_unavailable page_num st →
  (∃ s1, open_page page_num st = (Ok false, s1)) ∨
  (∃ s1 s2, open_page page_num st = (Ok true, s1) ∧
            all (page_locator thread_link_selector) s1 = (Ok [], s2)).
Proof.
  unfold page_unavailable, open_page, catch_timeout, catch, bind, ret. cbv zeta.
  destruct (goto (page_url page_num) st) as [[[]|e] s1]; cbn [fst snd].
  - destruct (wait_for_selector thread_link_selector s1) as [[[]|e] s2]; cbn [fst snd].
    + intros [?|[[_ ?]|(_ & _ & Hall)]]; try done. right.
      destruct (all (page_locator thread_link_selector) s2) as [r s3] eqn:Hr.
      cbn [fst] in Hall. subst r. eauto.
    + intros [?|[[_ [= ->]]|(_ & ? & _)]]; try done. left. eauto.
  - intros [[= ->]|[[? _]|(? & _)]]; try done. left. eauto.
Qed.

Lemma loop_pages_stops page_num rest seen st :
  page_unavailable page_num st →
  ∃ st', loop_pages (page_num :: rest) seen st = (Ok seen, st') ∧
         files st' = files st ∧
         events st' = events st ++ [EvGoto (page_url page_num)].
Proof.
  intros Hun. rewrite loop_pages_cons.
  destruct (open_page_events page_num st) as [Hf He].
  destruct (open_page_unavailable _ _ Hun) as [(s1 & Hopen)|(s1 & s2 & Hopen & Hall)];
    rewrite Hopen in *; cbn [fst snd] in *.
  - eauto.
  - destruct (quiet_lift (pw_all (page_locator thread_link_selector)) s1) as [Hf1 He1].
    change (lift (pw_all ?l)) with (all (W:=W) l) in Hf1, He1.
    rewrite Hall in *. cbn [fst snd] in *. exists s2. split; [done|].
    split; congruence.
Qed.

(** X15.  The crawl of 02 ends at the first page that cannot be read (the
    navigation or the wait for a link times out, or the page shows no
    link): it returns what it has collected so far without raising, and no
    later page is requested. *)
Theorem crawl_stops_at_unavailable_page page_num rest seen st :
  page_unavailable page_num st →
  ∃ st', loop_pages (page_num :: rest) seen st = (Ok seen, st') ∧
         files st' = files st ∧
         navigations (events st') = navigations (events st) ++ [page_url page_num].
Proof.
  intros Hun. destruct (loop_pages_stops page_num rest seen st Hun)
    as (st' & Hloop & Hf & He).
  exists st'. split; [done|]. split; [done|]. by rewrite He, navigations_app.
Qed.

(** X17.  When already the first page cannot be read, [main] of 02 saves
    nothing: after that one navigation all files are as they were, and no
    error is reported. *)
Theorem main_02_saves_nothing_without_urls st :
  auth_state_json (files st) = true →
  page_unavailable 1 st →
  files (main_02 st) = files st ∧
  events (main_02 st) = events st ++ [EvGoto (page_url 1)].
Proof.
  intros Hauth Hun. unfold main_02, get_all_thread_urls_by_looping, bind, ret.
  rewrite Hauth. simpl negb. cbv iota.
  destruct (loop_pages_stops 1 (seq 2 8) ∅ st Hun) as (st' & Hloop & Hf & He).
  change (1 :: seq 2 8) with PAGE_RANGE in Hloop. rewrite Hloop.
  by rewrite elements_empty.
Qed.

Lemma loop_pages_qualified page_nums seen st s st' :
  loop_pages page_nums seen st = (Ok s, st') →
  (∀ u, u ∈ seen → scheme_qualified u) →
  ∀ u, u ∈ s → scheme_qualified u.
Proof.
  revert seen st. induction page_nums as [|page_num rest IH]; intros seen st.
  - by intros [= <- <-].
  - rewrite loop_pages_cons.
    destruct (open_page page_num st) as [[[|]|e] s1]; [| by intros [= <- <-] | done].
    destruct (all (page_locator thread_link_selector) s1) as [[[|link links]|e] s2];
      [by intros [= <- <-] | | done].
    destruct (collect_hrefs (link :: links) seen s2) as [[seen1|e] s3] eqn:Hc; [|done].
    intros Hloop Hseen. apply (IH _ _ Hloop).
    by apply (collect_hrefs_qualified _ _ _ _ _ Hc).
Qed.

(** X16.  What [main] of 02 can do to the files: the session file and the
    data file are never touched, and [thread_urls.json] is either left as
    it was or replaced by a list that is not empty, sorted, free of
    duplicates and made of qualified URLs. *)
Theorem main_02_artifact st :
  auth_state_json (files (main_02 st)) = auth_state_json (files st) ∧
  scraped_data_json (files (main_02 st)) = scraped_data_json (files st) ∧
  (thread_urls_json (files (main_02 st)) = thread_urls_json (files st) ∨
   ∃ l, l ≠ [] ∧ thread_urls_json (files (main_02 st)) = Some l ∧
        StronglySorted String.le l ∧ NoDup l ∧
        ∀ u, u ∈ l → scheme_qualified u).
Proof.
  unfold main_02. destruct (auth_state_json (files st)) eqn:Hauth; simpl negb;
    cbv iota; [|by rewrite Hauth; auto].
  unfold get_all_thread_urls_by_looping, bind, ret.
  destruct (loop_pages_events PAGE_RANGE ∅ st) as (visited & _ & Hf & _).
  destruct (loop_pages PAGE_RANGE ∅ st) as [[seen|e] s1] eqn:Hloop; cbn [fst snd] in *.
  - destruct (elements seen) as [|u0 l0] eqn:Hel.
    + rewrite Hf, Hauth. auto.
    + cbn. rewrite Hf, Hauth. split; [done|]. split; [done|]. right.
      assert (sorted (u0 :: l0) ≡ₚ u0 :: l0) as Hperm by apply merge_sort_Permutation.
      exists (sorted (u0 :: l0)). split; [|split; [done|split; [|split]]].
      * intros Hnil. rewrite Hnil in Hperm. by apply Permutation_nil_cons in Hperm.
      * apply StronglySorted_merge_sort; apply _.
      * rewrite Hperm, <- Hel. apply NoDup_elements.
      * intros u Hu. rewrite Hperm, <- Hel in Hu. apply elem_of_elements in Hu.
        apply (loop_pages_qualified _ _ _ _ _ Hloop); [|done].
        intros ? ?%not_elem_of_empty. done.
  - cbn. rewrite Hf, Hauth. auto.
Qed.

End VariantFacts.

Section MoreDiscoveryRuns.
#[local] Existing Instance Fake.playwright.

(** X8, witness: the first page never shows a link, the wait times out. *)
Lemma discovery_effects_witness :
  auth_state_json (files (log (EvError TimeoutError)
                            (get_all_thread_urls 3 MoreRuns.st_blank).2)) = true ∧
  scraped_data_json (files (log (EvError TimeoutError)
                              (get_all_thread_urls 3 MoreRuns.st_blank).2))
  = scraped_data_json (files MoreRuns.st_blank) ∧
  ((∃ e, (get_all_thread_urls 3 MoreRuns.st_blank).1 = Raise e ∧
         events (log (EvError TimeoutError) (get_all_thread_urls 3 MoreRuns.st_blank).2)
         = events MoreRuns.st_blank ++ [EvGoto GROUP_URL; EvError e] ∧
         files (log (EvError TimeoutError) (get_all_thread_urls 3 MoreRuns.st_blank).2)
         = files MoreRuns.st_blank) ∨
   (∃ thread_urls, (get_all_thread_urls 3 MoreRuns.st_blank).1 = Ok (Some thread_urls) ∧
         events (log (EvError TimeoutError) (get_all_thread_urls 3 MoreRuns.st_blank).2)
         = events MoreRuns.st_blank ++ [EvGoto GROUP_URL; EvWrite URLS_FILE] ∧
         thread_urls_json (files (log (EvError TimeoutError)
                                    (get_all_thread_urls 3 MoreRuns.st_blank).2))
         = Some (sorted thread_urls))).
Proof.
  apply (discovery_effects 3 MoreRuns.st_blank); [reflexivity|].
  vm_compute. reflexivity.
Defined.

(** X9, witness: the loop over the three pages, started from a set that
    holds one URL already; two page transitions are made. *)
Lemma urls_accumulate_witness :
  ∃ K seenK stK,
    advances K {[ "https://groups.io/g/44net/topic/0" ]} Runs.st_three seenK stK ∧
    3 = 1 + K ∧ K < 5 ∧
    seenK ⊆ {[ "https://groups.io/g/44net/topic/0"; "https://groups.io/g/44net/topic/1";
               "https://groups.io/g/44net/topic/2"; "https://groups.io/g/44net/topic/3" ]} ∧
    ∀ J seenJ stJ,
      advances J {[ "https://groups.io/g/44net/topic/0" ]} Runs.st_three seenJ stJ →
      J ≤ K ∧ {[ "https://groups.io/g/44net/topic/0" ]} ⊆ seenJ ∧ seenJ ⊆ seenK.
Proof.
  apply (urls_accumulate 5 _ 1 Runs.st_three _ 3
           (pagination_loop 5 {[ "https://groups.io/g/44net/topic/0" ]} 1
              Runs.st_three).2).
  vm_compute. reflexivity.
Defined.

(** X10, witness: two orders of the same three URLs. *)
Lemma sorted_order_independent_witness :
  sorted [Runs.topic "C"; Runs.topic "A"; Runs.topic "B"]
  = sorted [Runs.topic "B"; Runs.topic "C"; Runs.topic "A"] ∧
  sorted (sorted [Runs.topic "C"; Runs.topic "A"; Runs.topic "B"])
  = sorted [Runs.topic "C"; Runs.topic "A"; Runs.topic "B"].
Proof.
  apply (sorted_order_independent [Runs.topic "C"; Runs.topic "A"; Runs.topic "B"]
           [Runs.topic "B"; Runs.topic "C"; Runs.topic "A"]).
  symmetry. apply (Permutation_cons_append [Runs.topic "C"; Runs.topic "A"] (Runs.topic "B")).
Defined.

(** X13, witness: the first strategy of 00002 matches two elements. *)
Lemma discovery_00002_aborts_witness :
  main_discovery_00002 1 MoreRuns.st_ambiguous
  = Some (log (EvError OtherError) (get_all_thread_urls_00002 1 MoreRuns.st_ambiguous).2) ∧
  files (log (EvError OtherError) (get_all_thread_urls_00002 1 MoreRuns.st_ambiguous).2)
  = files MoreRuns.st_ambiguous ∧
  events (log (EvError OtherError) (get_all_thread_urls_00002 1 MoreRuns.st_ambiguous).2)
  = events MoreRuns.st_ambiguous ++ [EvGoto GROUP_URL; EvError OtherError].
Proof.
  eapply (discovery_00002_aborts_on_probe_error 0 MoreRuns.st_ambiguous);
    [reflexivity | reflexivity | vm_compute; reflexivity..].
Defined.

(** The resolver of 000002 on the same page absorbs the error and reports
    that there is no next page. *)
Example ambiguous_probe_absorbed_000002 :
  (try_locators locators_to_try_00002
     (collect_page_of thread_link_selector_00002 ∅ MoreRuns.st_ambiguous).2).1
  = Ok false.
Proof. vm_compute. reflexivity. Qed.

End MoreDiscoveryRuns.

Section PagedRuns.
#[local] Existing Instance Paged.playwright.

(** X15, witness: page 2 of the numbered site shows no link. *)
Lemma crawl_stops_witness :
  ∃ st', loop_pages [2; 3] {[ "https://groups.io/g/44net/topic/1" ]} MoreRuns.st_numbered
         = (Ok {[ "https://groups.io/g/44net/topic/1" ]}, st') ∧
         files st' = files MoreRuns.st_numbered ∧
         navigations (events st')
         = navigations (events MoreRuns.st_numbered) ++ [page_url 2].
Proof.
  apply (crawl_stops_at_unavailable_page 2 [3] _ MoreRuns.st_numbered).
  right. left. split; vm_compute; reflexivity.
Defined.

(** X17, witness: a site without any page. *)
Lemma main_02_saves_nothing_witness :
  files (main_02 Runs.st_resume) = files Runs.st_resume ∧
  events (main_02 Runs.st_resume) = events Runs.st_resume ++ [EvGoto (page_url 1)].
Proof.
  apply (main_02_saves_nothing_without_urls Runs.st_resume); [reflexivity|].
  left. vm_compute. reflexivity.
Defined.

(** The crawl of 02 over the three numbered pages: page 2 has no link, so
    page 3 is never requested and its URL is missing from the file. *)
Example numbered_crawl_stops_early :
  navigations (events (main_02 MoreRuns.st_numbered)) = [page_url 1; page_url 2] ∧
  thread_urls_json (files (main_02 MoreRuns.st_numbered))
  = Some [ "https://groups.io/g/44net/topic/1"; "https://groups.io/g/44net/topic/2" ].
Proof. vm_compute. done. Qed.

(** Two pages with links: both are read, the third request times out. *)
Example numbered_crawl_two_pages :
  navigations (events (main_02 MoreRuns.st_two)) = [page_url 1; page_url 2; page_url 3] ∧
  interrupted (events (main_02 MoreRuns.st_two)) = false ∧
  thread_urls_json (files (main_02 MoreRuns.st_two))
  = Some [ "https://groups.io/g/44net/topic/1"; "https://groups.io/g/44net/topic/2";
           "https://groups.io/g/44net/topic/3" ].
Proof. vm_compute. done. Qed.

Example page_url_sample :
  page_url 9 = "https://ardc.groups.io/g/44net/topics?page=9".
Proof. vm_compute. reflexivity. Qed.

End PagedRuns.

(** ** The scrolling variant (002) *)

Section ScrollingFacts.
Context {W : Type} `{!Playwright W} (pw_evaluate : string → W → res unit * W).
Implicit Types st : St W.

Lemma scroll_round_grows seen st s st' :
  scroll_round pw_evaluate seen st = (Ok s, st') → seen ⊆ s.
Proof.
  unfold scroll_round, bind, ret.
  destruct (all (page_locator thread_link_selector_00002) st) as [[links|e] s1]; [|done].
  destruct (collect_hrefs links seen s1) as [[seen1|e] s2] eqn:Hc; [|done].
  destruct (evaluate pw_evaluate _ s2) as [[[]|e] s3]; [|done].
  intros [= <- _]. by apply (collect_hrefs_grows _ _ _ _ _ Hc).
Qed.

Lemma scroll_loop_S fuel seen patience st :
  scroll_loop pw_evaluate (S fuel) seen patience st =
  if bool_decide (patience < SCROLL_PATIENCE) then
    match scroll_round pw_evaluate seen st with
    | (Ok seen1, st1) =>
        scroll_loop pw_evaluate fuel seen1
          (if bool_decide (size seen < size seen1) then 0 else patience + 1) st1
    | (Raise e, st1) => (Raise e, st1)
    end
  else (Ok (Some seen), st).
Proof.
  cbn [scroll_loop]. case_bool_decide; [|done]. unfold bind at 1.
  by destruct (scroll_round pw_evaluate seen st) as [[seen1|e] st1].
Qed.

Lemma scroll_loop_idle k seen st st' :
  idle pw_evaluate k seen st st' →
  ∀ patience fuel,
    patience + k = SCROLL_PATIENCE →
    (k < fuel → scroll_loop pw_evaluate fuel seen patience st = (Ok (Some seen), st')) ∧
    (fuel ≤ k → ∃ s, scroll_loop pw_evaluate fuel seen patience st = (Ok None, s)).
Proof.
  induction 1 as [seen st|k seen st seen1 st1 st' Hround Hsize Hidle IH];
    intros patience fuel Hp.
  - split.
    + intros Hfuel. destruct fuel as [|fuel]; [lia|]. rewrite scroll_loop_S.
      rewrite bool_decide_eq_false_2 by lia. done.
    + intros Hfuel. assert (fuel = 0) as -> by lia. by exists st.
  - assert (seen1 = seen) as ->.
    { symmetry. apply set_subseteq_size_eq; [|done].
      by apply (scroll_round_grows _ _ _ _ Hround). }
    split.
    + intros Hfuel. destruct fuel as [|fuel]; [lia|]. rewrite scroll_loop_S.
      rewrite bool_decide_eq_true_2 by lia. rewrite Hround.
      rewrite (bool_decide_eq_false_2 (size seen < size seen)) by lia.
      apply IH; lia.
    + intros Hfuel. destruct fuel as [|fuel]; [by exists st|]. rewrite scroll_loop_S.
      rewrite bool_decide_eq_true_2 by lia. rewrite Hround.
      rewrite (bool_decide_eq_false_2 (size seen < size seen)) by lia.
      apply IH; lia.
Qed.

Lemma scroll_loop_grows fuel seen patience st s st' :
  scroll_loop pw_evaluate fuel seen patience st = (Ok (Some s), st') → seen ⊆ s.
Proof.
  revert seen patience st. induction fuel as [|fuel IH]; intros seen patience st; [done|].
  rewrite scroll_loop_S. case_bool_decide; [|by intros [= <- _]].
  destruct (scroll_round pw_evaluate seen st) as [[seen1|e] st1] eqn:Hround; [|done].
  intros Hs%IH. etrans; [|done]. by apply (scroll_round_grows _ _ _ _ Hround).
Qed.

(** X18.  The patience of the scrolling loop of 002: with the counter at
    [patience], once [SCROLL_PATIENCE - patience] rounds in a row find no
    new URL the loop returns, with the set it held, after exactly these
    rounds and not before. *)
Theorem scroll_patience k seen patience st st' :
  patience + k = SCROLL_PATIENCE →
  idle pw_evaluate k seen st st' →
  ∀ fuel,
    (k < fuel → scroll_loop pw_evaluate fuel seen patience st = (Ok (Some seen), st')) ∧
    (fuel ≤ k → ∃ s, scroll_loop pw_evaluate fuel seen patience st = (Ok None, s)).
Proof. intros Hp Hidle fuel. by apply scroll_loop_idle. Qed.

Lemma scroll_round_qualified seen st s st' :
  scroll_round pw_evaluate seen st = (Ok s, st') →
  (∀ u, u ∈ seen → scheme_qualified u) → ∀ u, u ∈ s → scheme_qualified u.
Proof.
  unfold scroll_round, bind, ret.
  destruct (all (page_locator thread_link_selector_00002) st) as [[links|e] s1]; [|done].
  destruct (collect_hrefs links seen s1) as [[seen1|e] s2] eqn:Hc; [|done].
  destruct (evaluate pw_evaluate _ s2) as [[[]|e] s3]; [|done].
  intros [= <- _]. by apply (collect_hrefs_qualified _ _ _ _ _ Hc).
Qed.

Lemma scroll_loop_qualified fuel seen patience st s st' :
  scroll_loop pw_evaluate fuel seen patience st = (Ok (Some s), st') →
  (∀ u, u ∈ seen → scheme_qualified u) → ∀ u, u ∈ s → scheme_qualified u.
Proof.
  revert seen patience st. induction fuel as [|fuel IH]; intros seen patience st; [done|].
  rewrite scroll_loop_S. case_bool_decide; [|by intros [= <- _]].
  destruct (scroll_round pw_evaluate seen st) as [[seen1|e] st1] eqn:Hround; [|done].
  intros Hloop Hseen. apply (IH _ _ _ Hloop).
  by apply (scroll_round_qualified _ _ _ _ Hround).
Qed.

(** X19.  What the scrolling loop of 002 returns, and when.  The set it
    returns was reached by some number [R] of rounds from the start, and
    was then followed by rounds that found nothing new: [SCROLL_PATIENCE]
    of them, or [SCROLL_PATIENCE] less the counter if the set is still the
    one the loop started with and no round came before; the loop returns
    in the state these rounds left, and all of them fit in the fuel.  The
    set contains the one the loop started from and, if that one held
    qualified URLs only, holds qualified URLs only. *)
Theorem scroll_result fuel seen patience st s st' :
  scroll_loop pw_evaluate fuel seen patience st = (Ok (Some s), st') →
  (∃ R k stR,
     scrolled pw_evaluate R seen st s stR ∧
     idle pw_evaluate k s stR st' ∧
     k = SCROLL_PATIENCE - (if R is 0 then patience else 0) ∧
     R + k < fuel) ∧
  seen ⊆ s ∧
  ((∀ u, u ∈ seen → scheme_qualified u) → ∀ u, u ∈ s → scheme_qualified u).
Proof.
  intros Hloop. split; [|split];
    [|by apply (scroll_loop_grows _ _ _ _ _ _ Hloop)
     |by apply (scroll_loop_qualified _ _ _ _ _ _ Hloop)].
  revert seen patience st Hloop.
  induction fuel as [|fuel IH]; intros seen patience st; [done|].
  rewrite scroll_loop_S. case_bool_decide as Hp.
  - destruct (scroll_round pw_evaluate seen st) as [[seen1|e] st1] eqn:Hround; [|done].
    intros (R & k & stR & Hrounds & Hidle & Hk & Hfuel)%IH.
    destruct R as [|R].
    + inversion Hrounds; subst.
      destruct (decide (size seen < size s)) as [Hnew|Hnew].
      * rewrite bool_decide_eq_true_2, Nat.sub_0_r in Hidle, Hfuel by done.
        exists 1, SCROLL_PATIENCE, stR. split; [|split; [|split]].
        -- eapply scrolled_S; [done | constructor].
        -- done.
        -- by rewrite Nat.sub_0_r.
        -- lia.
      * rewrite bool_decide_eq_false_2 in Hidle, Hfuel by done.
        assert (s = seen) as ->.
        { symmetry. apply set_subseteq_size_eq; [|lia].
          by apply (scroll_round_grows _ _ _ _ Hround). }
        exists 0, (S (SCROLL_PATIENCE - (patience + 1))), st. split; [|split; [|split]].
        -- constructor.
        -- eapply idle_S; [done | lia | done].
        -- lia.
        -- lia.
    + exists (S (S R)), k, stR. split; [|split; [|split]].
      * by eapply scrolled_S.
      * done.
      * done.
      * lia.
  - intros [= <- <-]. exists 0, 0, st. split; [constructor|]. split; [constructor|].
    split; lia.
Qed.

End ScrollingFacts.

Section ScrollingRuns.
#[local] Existing Instance Fake.playwright.

(** X18, witness: a page that shows nothing more, five idle rounds. *)
Lemma scroll_patience_witness :
  scroll_loop Paged.do_scroll 6 {[ "https://groups.io/g/44net/topic/1" ]} 0 Runs.st_stuck
  = (Ok (Some {[ "https://groups.io/g/44net/topic/1" ]}),
     (scroll_loop Paged.do_scroll 6 {[ "https://groups.io/g/44net/topic/1" ]} 0
        Runs.st_stuck).2) ∧
  ∃ s, scroll_loop Paged.do_scroll 5 {[ "https://groups.io/g/44net/topic/1" ]} 0
         Runs.st_stuck = (Ok None, s).
Proof.
  split.
  - refine (proj1 (scroll_patience Paged.do_scroll 5 _ 0 Runs.st_stuck _ _ _ 6) _);
      [reflexivity | | lia].
    do 5 (eapply idle_S; [vm_compute; reflexivity | vm_compute; lia |]).
    vm_compute. apply idle_O.
  - refine (proj2 (scroll_patience Paged.do_scroll 5 _ 0 Runs.st_stuck _ _ _ 5) _);
      [reflexivity | | lia].
    do 5 (eapply idle_S; [vm_compute; reflexivity | vm_compute; lia |]).
    apply idle_O.
Defined.

(** X19, witness: the list that grows while it is scrolled; the set of
    two URLs is there after two rounds, and five rounds without a new URL
    follow. *)
Lemma scroll_result_witness :
  (∃ R k stR,
     scrolled Paged.do_scroll R ∅ MoreRuns.st_growing
       {[ "https://groups.io/g/44net/topic/1"; "https://groups.io/g/44net/topic/2" ]} stR ∧
     idle Paged.do_scroll k
       {[ "https://groups.io/g/44net/topic/1"; "https://groups.io/g/44net/topic/2" ]} stR
       (scroll_loop Paged.do_scroll 8 ∅ 0 MoreRuns.st_growing).2 ∧
     k = SCROLL_PATIENCE - (if R is 0 then 0 else 0) ∧
     R + k < 8) ∧
  (∅ : gset string)
  ⊆ {[ "https://groups.io/g/44net/topic/1"; "https://groups.io/g/44net/topic/2" ]} ∧
  ((∀ u, u ∈ (∅ : gset string) → scheme_qualified u) →
   ∀ u, u ∈ ({[ "https://groups.io/g/44net/topic/1";
                "https://groups.io/g/44net/topic/2" ]} : gset string) →
        scheme_qualified u).
Proof.
  apply (scroll_result Paged.do_scroll 8 ∅ 0 MoreRuns.st_growing _
           (scroll_loop Paged.do_scroll 8 ∅ 0 MoreRuns.st_growing).2).
  vm_compute. reflexivity.
Defined.

(** The whole of [get_all_thread_urls] of 002 on the growing list: two
    URLs, found after seven rounds. *)
Example scrolling_run :
  (get_all_thread_urls_002 Paged.do_scroll 8 MoreRuns.st_growing).1
  = Ok (Some (elements ({[ "https://groups.io/g/44net/topic/1";
                           "https://groups.io/g/44net/topic/2" ]} : gset string))) ∧
  (get_all_thread_urls_002 Paged.do_scroll 7 MoreRuns.st_growing).1 = Ok None.
Proof. vm_compute. done. Qed.

End ScrollingRuns.

(** ** The two phases in a row *)

Section PipelineFacts.
Context {W : Type} `{!Playwright W}.
Implicit Types st : St W.

(** X20.  Discovery followed by extraction: when [main] of 000002 has
    written the file of URLs, [main] of 03 run on the result navigates
    only to URLs that discovery found, all of them qualified, and to none
    of them twice. *)
Theorem pipeline_visits fuel st thread_urls st1 :
  auth_state_json (files st) = true →
  get_all_thread_urls fuel st = (Ok (Some thread_urls), st1) →
  main_discovery fuel st = Some (write_urls (sorted thread_urls) st1) ∧
  ∃ evs,
    events (main (write_urls (sorted thread_urls) st1))
    = events (write_urls (sorted thread_urls) st1) ++ evs ∧
    NoDup (navigations evs) ∧
    ∀ u, u ∈ navigations evs → u ∈ thread_urls ∧ scheme_qualified u.
Proof.
  intros Hauth Hget. split.
  { unfold main_discovery. by rewrite Hauth, Hget. }
  destruct (get_all_thread_urls_spec _ _ _ _ Hget) as [Hnd Hq].
  destruct (get_all_thread_urls_events fuel st) as [Hf _].
  rewrite Hget in Hf. cbn [snd] in Hf.
  set (st2 := write_urls (sorted thread_urls) st1).
  assert (auth_state_json (files st2) = true) as Hauth2 by (cbn; by rewrite Hf).
  assert (thread_urls_json (files st2) = Some (sorted thread_urls)) as Hurls2 by done.
  destruct (main_with_spec save_due_03 st2 _ Hauth2 Hurls2)
    as (evs & new & Hev & [rest Hpre] & _).
  exists evs. split; [done|].
  assert (sorted thread_urls ≡ₚ thread_urls) as Hperm
    by (unfold sorted; apply merge_sort_Permutation).
  assert (NoDup (urls_to_process (sorted thread_urls)
                   (default ∅ (scraped_data_json (files st2))))) as Hnd2.
  { unfold urls_to_process. apply NoDup_filter. by rewrite Hperm. }
  rewrite Hpre in Hnd2. apply NoDup_app in Hnd2 as (Hnav & _ & _).
  split; [done|]. intros u Hu.
  assert (u ∈ urls_to_process (sorted thread_urls)
                (default ∅ (scraped_data_json (files st2)))) as Hin
    by (rewrite Hpre; apply elem_of_app; by left).
  unfold urls_to_process in Hin. apply list_elem_of_filter in Hin as [_ Hin].
  rewrite Hperm in Hin. split; [done|]. by apply Hq.
Qed.

End PipelineFacts.

Section PipelineRuns.
#[local] Existing Instance Fake.playwright.

(** X20, witness: the three pages of the topic list; none of the three
    threads exists on this site, so every visit times out. *)
Lemma pipeline_visits_witness :
  main_discovery 5 Runs.st_three
  = Some (write_urls (sorted (elements ({[ "https://groups.io/g/44net/topic/1";
                                           "https://groups.io/g/44net/topic/2";
                                           "https://groups.io/g/44net/topic/3" ]}
                                        : gset string)))
            (get_all_thread_urls 5 Runs.st_three).2) ∧
  ∃ evs,
    events (main (write_urls
                    (sorted (elements ({[ "https://groups.io/g/44net/topic/1";
                                          "https://groups.io/g/44net/topic/2";
                                          "https://groups.io/g/44net/topic/3" ]}
                                       : gset string)))
                    (get_all_thread_urls 5 Runs.st_three).2))
    = events (write_urls
                (sorted (elements ({[ "https://groups.io/g/44net/topic/1";
                                      "https://groups.io/g/44net/topic/2";
                                      "https://groups.io/g/44net/topic/3" ]}
                                   : gset string)))
                (get_all_thread_urls 5 Runs.st_three).2) ++ evs ∧
    NoDup (navigations evs) ∧
    ∀ u, u ∈ navigations evs →
         u ∈ elements ({[ "https://groups.io/g/44net/topic/1";
                          "https://groups.io/g/44net/topic/2";
                          "https://groups.io/g/44net/topic/3" ]} : gset string) ∧
         scheme_qualified u.
Proof.
  apply (pipeline_visits 5 Runs.st_three); [reflexivity|].
  vm_compute. reflexivity.
Defined.

(** Both phases on that site, computed. *)
Example pipeline_run :
  (fun st1 => navigations (events (main st1))) <$> main_discovery 5 Runs.st_three
  = Some [ GROUP_URL;
           "https://groups.io/g/44net/topic/1";
           "https://groups.io/g/44net/topic/2";
           "https://groups.io/g/44net/topic/3" ].
Proof. vm_compute. reflexivity. Qed.

End PipelineRuns.
